(** * mlfinlab.backtest_statistics.backtests : CampbellBacktesting

    A shallow embedding of [src/mlfinlab/backtest_statistics/backtests.py]
    (the Haircut Sharpe Ratio algorithm of Harvey and Liu) and the
    properties of it that the repository's specification states.

    Reading of the Python data:
    - a Python [int] is a [Z];
    - a Python [float] / NumPy [float64] is an [fl]: a rational, one of the
      two infinities, or NaN.  Finite arithmetic is exact (rounding and the
      sign of zero are left out); the special values follow IEEE 754, which
      is what NumPy does on a division by zero, and a power [x ** n] of a
      Python float that leaves the range of binary64 raises.  Where a statement is about
      bit-exact equality the function is read a second time over binary64
      ([PrimFloat]), see [B64];
    - a Python [str] is a [string];
    - a one-dimensional [np.ndarray] is a [list fl], the simulated panel is
      an [ndarray2] (shape and cell function);
    - a call that can raise returns a [result];
    - [scipy.stats], the non-integer powers and the random draws are not
      computed here: they are the variables of the section [Campbell]. *)

From Stdlib Require Import String Ascii.
From Stdlib Require Import ZArith QArith Qround Qabs List Lia Lqa Bool.
From Stdlib Require Import Orders Sorting.Mergesort Sorting.Sorted.
From Stdlib Require Import PrimFloat Floats.
Import ListNotations.

Set Warnings "-inexact-float".

(* ================================================================== *)
(** ** Exceptions *)

(** The exceptions the interpreter and NumPy raise on the paths of this
    file ([LinAlgError] is [numpy.linalg.LinAlgError]), and
    [InvalidInputError], the name the specification gives to a rejected
    input. *)
Inductive exn : Type :=
| ZeroDivisionError
| IndexError
| ValueError
| OverflowError
| LinAlgError
| InvalidInputError.

Inductive result (A : Type) : Type :=
| Ok (a : A)
| Raise (e : exn).

Arguments Ok {A} a.
Arguments Raise {A} e.

Definition bind {A B : Type} (m : result A) (k : A -> result B) : result B :=
  match m with
  | Ok a => k a
  | Raise e => Raise e
  end.

Notation "x <- m ;; k" := (bind m (fun x => k))
  (at level 61, m at next level, right associativity).

Fixpoint mapM {A B : Type} (f : A -> result B) (l : list A) : result (list B) :=
  match l with
  | [] => Ok []
  | a :: l' => b <- f a ;; bs <- mapM f l' ;; Ok (b :: bs)
  end.

Definition raises {A : Type} (m : result A) (e : exn) : Prop := m = Raise e.

(* ================================================================== *)
(** ** Floats *)

Inductive fl : Type :=
| Fin (q : Q)
| Inf (neg : bool)
| NaN.

Definition of_int (z : Z) : fl := Fin (inject_Z z).

Definition Qneg (q : Q) : bool := negb (Qle_bool 0 q).
Definition Qzero (q : Q) : bool := Qeq_bool q 0.

Definition is_finite (x : fl) : bool :=
  match x with Fin _ => true | _ => false end.

Definition is_nan (x : fl) : bool :=
  match x with NaN => true | _ => false end.

Definition fl_opp (x : fl) : fl :=
  match x with
  | Fin q => Fin (- q)
  | Inf s => Inf (negb s)
  | NaN => NaN
  end.

Definition fl_add (x y : fl) : fl :=
  match x, y with
  | Fin a, Fin b => Fin (a + b)
  | Fin _, Inf s => Inf s
  | Inf s, Fin _ => Inf s
  | Inf s, Inf t => if Bool.eqb s t then Inf s else NaN
  | _, _ => NaN
  end.

Definition fl_sub (x y : fl) : fl := fl_add x (fl_opp y).

Definition fl_mul (x y : fl) : fl :=
  match x, y with
  | Fin a, Fin b => Fin (a * b)
  | Fin a, Inf s => if Qzero a then NaN else Inf (xorb (Qneg a) s)
  | Inf s, Fin b => if Qzero b then NaN else Inf (xorb s (Qneg b))
  | Inf s, Inf t => Inf (xorb s t)
  | _, _ => NaN
  end.

(** NumPy's true division: a zero divisor gives an infinity or NaN (with a
    RuntimeWarning), never an exception. *)
Definition fl_div (x y : fl) : fl :=
  match x, y with
  | Fin a, Fin b =>
      if Qzero b then (if Qzero a then NaN else Inf (Qneg a))
      else Fin (a / b)
  | Fin _, Inf _ => Fin 0
  | Inf s, Fin b => Inf (xorb s (Qneg b))
  | _, _ => NaN
  end.

(** Python's true division of two Python numbers: a zero divisor raises. *)
Definition py_div (x y : fl) : result fl :=
  match y with
  | Fin b => if Qzero b then Raise ZeroDivisionError else Ok (fl_div x y)
  | _ => Ok (fl_div x y)
  end.

(** [x < y], [x <= y] and [x == y]; every comparison with NaN is False. *)
Definition fl_ltb (x y : fl) : bool :=
  match x, y with
  | Fin a, Fin b => negb (Qle_bool b a)
  | Fin _, Inf s => negb s
  | Inf s, Fin _ => s
  | Inf s, Inf t => s && negb t
  | _, _ => false
  end.

Definition fl_eqb (x y : fl) : bool :=
  match x, y with
  | Fin a, Fin b => Qeq_bool a b
  | Inf s, Inf t => Bool.eqb s t
  | _, _ => false
  end.

Definition fl_leb (x y : fl) : bool := fl_ltb x y || fl_eqb x y.

Definition fl_abs (x : fl) : fl :=
  match x with
  | Fin q => Fin (Qabs q)
  | Inf _ => Inf false
  | NaN => NaN
  end.

(** [np.floor]: the result is still a float. *)
Definition np_floor (x : fl) : fl :=
  match x with
  | Fin q => of_int (Qfloor q)
  | _ => x
  end.

(** [int(x)] of a float: truncation toward zero; NaN and the infinities
    raise. *)
Definition py_int (x : fl) : result Z :=
  match x with
  | Fin q => Ok (Z.quot (Qnum q) (Zpos (Qden q)))
  | Inf _ => Raise OverflowError
  | NaN => Raise ValueError
  end.

(** The builtin [min(a, b)] and [max] over a sequence: both keep the first
    of two elements that do not compare strictly. *)
Definition py_min (a b : fl) : fl := if fl_ltb b a then b else a.

Definition py_max (a b : fl) : fl := if fl_ltb a b then b else a.

Definition py_max_list (l : list fl) : result fl :=
  match l with
  | [] => Raise ValueError
  | x :: l' => Ok (fold_left py_max l' x)
  end.

(** [np.minimum]: elementwise minimum that propagates NaN. *)
Definition np_minimum (a b : fl) : fl :=
  if is_nan a then a else if is_nan b then b else if fl_ltb b a then b else a.

(** [x ** n] for a positive integer exponent, as a number. *)
Definition fl_pow (x : fl) (n : positive) : fl :=
  Pos.iter (fl_mul x) (Fin 1) n.

(** The largest binary64 number, [sys.float_info.max]. *)
Definition max_float : Q := inject_Z (2 ^ 1024 - 2 ^ 971).

(** [x ** n] on a Python float: a finite base whose power is out of the
    range of a float raises [OverflowError]; an infinite base or NaN gives
    an infinity or NaN. *)
Definition py_pow (x : fl) (n : positive) : result fl :=
  match fl_pow x n with
  | Fin q => if Qle_bool (Qabs q) max_float then Ok (Fin q)
             else Raise OverflowError
  | y => Ok y
  end.

(** Equality of floats as numbers ([Fin] up to [Qeq]). *)
Definition fl_equiv (x y : fl) : Prop :=
  match x, y with
  | Fin a, Fin b => a == b
  | Inf s, Inf t => s = t
  | NaN, NaN => True
  | _, _ => False
  end.

Declare Scope fl_scope.
Delimit Scope fl_scope with fl.
Bind Scope fl_scope with fl.
Infix "+" := fl_add : fl_scope.
Infix "-" := fl_sub : fl_scope.
Infix "*" := fl_mul : fl_scope.
Infix "/" := fl_div : fl_scope.
Infix "<?" := fl_ltb : fl_scope.
Infix "==?" := fl_eqb (at level 70) : fl_scope.

(** A decimal literal of the source. *)
Definition lit (q : Q) : fl := Fin q.

(* ================================================================== *)
(** ** Python sequences and NumPy arrays *)

Fixpoint foldM {A S : Type} (f : S -> A -> result S) (l : list A) (s : S)
  : result S :=
  match l with
  | [] => Ok s
  | a :: l' => s' <- f s a ;; foldM f l' s'
  end.

(** [range(lo, hi)] and [range(hi, lo, -1)]. *)
Definition py_range (lo hi : Z) : list Z :=
  map (fun k => (lo + Z.of_nat k)%Z) (seq 0 (Z.to_nat (hi - lo))).

Definition py_range_down (hi lo : Z) : list Z :=
  map (fun k => (hi - Z.of_nat k)%Z) (seq 0 (Z.to_nat (hi - lo))).

(** [l[i]]: a negative index counts from the end. *)
Definition py_index {A : Type} (l : list A) (i : Z) : result A :=
  let n := Z.of_nat (length l) in
  let j := if (i <? 0)%Z then (i + n)%Z else i in
  if ((j <? 0) || (n <=? j))%Z then Raise IndexError
  else match nth_error l (Z.to_nat j) with
       | Some x => Ok x
       | None => Raise IndexError
       end.

(** The bounds of the slice [lo:hi] over [n] elements, as (start, length). *)
Definition slice_bound (n b : Z) : Z :=
  if (b <? 0)%Z then Z.max (b + n) 0 else Z.min b n.

Definition py_slice_bounds (n : nat) (lo hi : Z) : nat * nat :=
  let lo' := slice_bound (Z.of_nat n) lo in
  let hi' := slice_bound (Z.of_nat n) hi in
  (Z.to_nat lo', Z.to_nat (hi' - lo')).

Definition py_slice {A : Type} (l : list A) (lo hi : Z) : list A :=
  let '(start, len) := py_slice_bounds (length l) lo hi in
  firstn len (skipn start l).

(** [values[mask]] with a boolean mask: the shapes must agree. *)
Fixpoint select {A : Type} (values : list A) (mask : list bool) : list A :=
  match values, mask with
  | v :: vs, b :: bs => if b then v :: select vs bs else select vs bs
  | _, _ => []
  end.

Definition np_mask {A : Type} (values : list A) (mask : list bool)
  : result (list A) :=
  if Nat.eqb (length values) (length mask) then Ok (select values mask)
  else Raise IndexError.

Fixpoint set_nth (l : list fl) (i : nat) (v : fl) : list fl :=
  match l, i with
  | [], _ => []
  | _ :: l', O => v :: l'
  | x :: l', S i' => x :: set_nth l' i' v
  end.

(** [a[i] = v]; a negative index counts from the end. *)
Definition np_setitem (l : list fl) (i : Z) (v : fl) : result (list fl) :=
  let n := Z.of_nat (length l) in
  let j := if (i <? 0)%Z then (i + n)%Z else i in
  if ((j <? 0) || (n <=? j))%Z then Raise IndexError
  else Ok (set_nth l (Z.to_nat j) v).

(** Storing an array into one slot of a float array: NumPy takes it when
    it holds exactly one element. *)
Definition scalar_of (a : list fl) : result fl :=
  match a with
  | [x] => Ok x
  | _ => Raise ValueError
  end.

(** [np.ones(n)]. *)
Definition np_ones (n : Z) : result (list fl) :=
  if (n <? 0)%Z then Raise ValueError else Ok (repeat (of_int 1) (Z.to_nat n)).

(** [np.sort]: ascending, NaN last. *)
Definition np_le (x y : fl) : bool :=
  is_nan y || (negb (is_nan x) && fl_leb x y).

Lemma Qltb_true (a b : Q) : negb (Qle_bool b a) = true <-> (a < b)%Q.
Proof.
  rewrite negb_true_iff. split; intro H.
  - apply Qnot_le_lt. rewrite <- Qle_bool_iff, H. discriminate.
  - destruct (Qle_bool b a) eqn:E; [| reflexivity].
    apply Qle_bool_iff in E. exfalso. exact (Qlt_not_le _ _ H E).
Qed.

Lemma Qeqb_true (a b : Q) : Qeq_bool a b = true <-> (a == b)%Q.
Proof. apply Qeq_bool_iff. Qed.

Module FlOrder <: Orders.TotalLeBool.
Definition t := fl.
Definition leb := np_le.
Lemma leb_total : forall x y, leb x y = true \/ leb y x = true.
Proof.
  intros x y. unfold leb, np_le, fl_leb.
  destruct x as [a | [] |], y as [b | [] |]; simpl; auto.
  destruct (Q_dec a b) as [[H | H] | H].
  - left. apply orb_true_iff. left. now apply Qltb_true.
  - right. apply orb_true_iff. left. now apply Qltb_true.
  - left. apply orb_true_iff. right. now apply Qeqb_true.
Qed.
End FlOrder.

Module FlSort := Mergesort.Sort FlOrder.

Definition np_sort (l : list fl) : list fl := FlSort.sort l.

(** [np.median]: NaN for an empty array or one that holds a NaN, else the
    middle of the sorted array (the mean of the two middle entries when the
    length is even). *)
Definition np_median (l : list fl) : fl :=
  let n := length l in
  if Nat.eqb n 0 then NaN
  else if existsb is_nan l then NaN
  else
    let s := np_sort l in
    if Nat.even n
    then ((nth (n / 2 - 1) s NaN + nth (n / 2) s NaN) / of_int 2)%fl
    else nth (n / 2) s NaN.

(** A two-dimensional array: its shape and its cells. *)
Record ndarray2 : Type := {
  nrows : nat;
  ncols : nat;
  cell : nat -> nat -> fl
}.

Definition row (a : ndarray2) (r : nat) : list fl :=
  map (cell a r) (seq 0 (ncols a)).

(** [a[r, lo:hi]]. *)
Definition row_slice (a : ndarray2) (r : Z) (lo hi : Z) : result (list fl) :=
  let n := Z.of_nat (nrows a) in
  let r' := if (r <? 0)%Z then (r + n)%Z else r in
  if ((r' <? 0) || (n <=? r'))%Z then Raise IndexError
  else
    let '(start, len) := py_slice_bounds (ncols a) lo hi in
    Ok (map (cell a (Z.to_nat r')) (seq start len)).

(* ================================================================== *)
(** ** class CampbellBacktesting *)

Open Scope fl_scope.

(** The object: [__init__] sets the number of Monte Carlo repetitions. *)
Record CampbellBacktesting : Type := {
  simulations : Z
}.

Definition __init__ : CampbellBacktesting := {| simulations := 2000 |}.

(** Scalar times row and row plus row of a NumPy array. *)
Definition vscale (a : fl) (v : list fl) : list fl := map (fl_mul a) v.

Fixpoint vadd (u v : list fl) : list fl :=
  match u, v with
  | x :: u', y :: v' => (x + y) :: vadd u' v'
  | _, _ => []
  end.

(** Levels of parameters based on rho:
    [rho, n_simulations, prob_zero_mean, lambd]. *)
Definition parameter_levels : list (list fl) :=
  [ [of_int 0; of_int 1295; lit 3.9660 * lit 0.1; lit 5.4995 * lit 0.001];
    [lit 0.2;  of_int 1377; lit 4.4589 * lit 0.1; lit 5.5508 * lit 0.001];
    [lit 0.4;  of_int 1476; lit 4.8604 * lit 0.1; lit 5.5413 * lit 0.001];
    [lit 0.6;  of_int 1773; lit 5.9902 * lit 0.1; lit 5.5512 * lit 0.001];
    [lit 0.8;  of_int 3109; lit 8.3901 * lit 0.1; lit 5.5956 * lit 0.001] ].

Definition level (k : nat) : list fl := nth k parameter_levels [].

(** One interpolation line of the source:
    [((hi - rho) / 0.2) * levels[a] + ((rho - lo) / 0.2) * levels[b]]. *)
Definition interpolate (rho hi lo : fl) (a b : nat) : list fl :=
  vadd (vscale ((hi - rho) / lit 0.2) (level a))
       (vscale ((rho - lo) / lit 0.2) (level b)).

Definition _parameter_calculation (rho : fl) : list fl :=
  if rho <? of_int 0 then level 1
  else if rho <? lit 0.2 then interpolate rho (lit 0.2) (of_int 0) 0 1
  else if rho <? lit 0.4 then interpolate rho (lit 0.4) (lit 0.2) 1 2
  else if rho <? lit 0.6 then interpolate rho (lit 0.6) (lit 0.4) 2 3
  else if rho <? lit 0.8 then interpolate rho (lit 0.8) (lit 0.6) 3 4
  else if rho <? lit 1.0 then interpolate rho (lit 0.8) (lit 0.6) 3 4
  else level 1.

(** [parameters[k]]. *)
Definition item (v : list fl) (k : nat) : fl := nth k v NaN.

Definition times_per_year (sampling_frequency : string) : Z :=
  if String.eqb sampling_frequency "D" then 360
  else if String.eqb sampling_frequency "W" then 52
  else if String.eqb sampling_frequency "M" then 12
  else if String.eqb sampling_frequency "Q" then 4
  else if String.eqb sampling_frequency "A" then 1
  else 1.

Definition _monthly_observations (num_obs : Z) (sampling_frequency : string)
  : fl :=
  if String.eqb sampling_frequency "D"
  then np_floor (of_int (num_obs * 12) / of_int 360)
  else if String.eqb sampling_frequency "W"
  then np_floor (of_int (num_obs * 12) / of_int 52)
  else if String.eqb sampling_frequency "M"
  then np_floor (of_int (num_obs * 12) / of_int 12)
  else if String.eqb sampling_frequency "Q"
  then np_floor (of_int (num_obs * 12) / of_int 4)
  else if String.eqb sampling_frequency "A"
  then np_floor (of_int (num_obs * 12) / of_int 1)
  else np_floor (of_int num_obs).

(** The intermediate array of the Holm method, [p_holm_values]. *)
Definition holm_adjusted (all_p_values : list fl) (num_mult_test i : Z)
  : result (list fl) :=
  mapM (fun j =>
          p <- py_index all_p_values (j - 1) ;;
          Ok (of_int (num_mult_test + 1 - j + 1) * p))
       (py_range 1 (i + 1)).

Definition holm_values (all_p_values : list fl) (num_mult_test : Z)
  : result (list fl) :=
  mapM (fun i =>
          p_adjusted_holm <- holm_adjusted all_p_values num_mult_test i ;;
          m <- py_max_list p_adjusted_holm ;;
          Ok (py_min m (of_int 1)))
       (py_range 1 (num_mult_test + 2)).

Definition _holm_method (all_p_values : list fl) (num_mult_test : Z)
  (p_val : fl) : result fl :=
  p_holm_values <- holm_values all_p_values num_mult_test ;;
  p_holm_significant <-
    np_mask p_holm_values (map (fun p => p ==? p_val) all_p_values) ;;
  py_index p_holm_significant 0.

(** The BHY constant, [sum(1 / index_vector)]. *)
Definition c_constant (num_mult_test : Z) : fl :=
  fold_left fl_add
    (map (fun k => of_int 1 / of_int k) (py_range 1 (num_mult_test + 1)))
    (of_int 0).

(** One pass of the backward loop of the BHY method; the state is
    ([p_bhy_values], [p_previous]).  [p_previous] is unbound before the
    first pass, which never reads it. *)
Definition bhy_step (all_p_values : list fl) (num_mult_test : Z)
  (st : list fl * fl) (i : Z) : result (list fl * fl) :=
  let '(p_bhy_values, p_previous) := st in
  p_adjusted_holm <-
    (if (i =? num_mult_test + 1)%Z
     then py_index all_p_values (-1)
     else
       p <- py_index all_p_values (i - 1) ;;
       Ok (py_min
             ((of_int (num_mult_test + 1) * c_constant num_mult_test
               / of_int i) * p)
             p_previous)) ;;
  Ok (p_adjusted_holm :: p_bhy_values, p_adjusted_holm).

(** The intermediate array of the BHY method, [p_bhy_values]. *)
Definition bhy_values (all_p_values : list fl) (num_mult_test : Z)
  : result (list fl) :=
  st <- foldM (bhy_step all_p_values num_mult_test)
          (py_range_down (num_mult_test + 1) 0) ([], NaN) ;;
  Ok (fst st).

Definition _bhy_method (all_p_values : list fl) (num_mult_test : Z)
  (p_val : fl) : result (list fl) :=
  p_bhy_values <- bhy_values all_p_values num_mult_test ;;
  np_mask p_bhy_values (map (fun p => p ==? p_val) all_p_values).

Section Campbell.

(** What the model does not compute: the non-integer powers
    [x ** (1 / 2)] and [x ** (-0.5)], the three [scipy.stats] functions,
    and the arrays the random generator hands out in
    [_sample_random_multest] (cell by cell). *)
Variable sqrt : fl -> fl.
Variable rsqrt : fl -> fl.
Variable t_cdf : fl -> fl -> fl.
Variable t_ppf : fl -> fl -> fl.
Variable norm_cdf : fl -> fl.
Variables shock_mat prob_vec mean_vec : nat -> nat -> fl.

(** [base ** (-0.5)] on Python floats: zero cannot be raised to a negative
    power.  (For a negative base Python answers with a complex number;
    the model has no complex numbers and takes what [rsqrt] gives.) *)
Definition py_pow_neg_half (base : fl) : result fl :=
  if base ==? of_int 0 then Raise ZeroDivisionError else Ok (rsqrt base).

Definition _annualized_sharpe_ratio (sharpe_ratio : fl)
  (sampling_frequency : string) (rho : fl)
  (annualized autocorr_adjusted : bool) : result fl :=
  let times_per_year := times_per_year sampling_frequency in
  let annual_multiplier :=
    if negb annualized then sqrt (of_int times_per_year) else of_int 1 in
  autocorr_multiplier <-
    (if negb autocorr_adjusted
     then
       a <- py_div (of_int 2 * rho) (of_int 1 - rho) ;;
       power <- py_pow rho (Z.to_pos times_per_year) ;;
       b <- py_div (of_int 1 - power)
                   (of_int times_per_year * (of_int 1 - rho)) ;;
       py_pow_neg_half (of_int 1 + a * (of_int 1 - b))
     else Ok (of_int 1)) ;;
  Ok (sharpe_ratio * annual_multiplier * autocorr_multiplier).

Definition _sharpe_ratio_haircut (p_val monthly_obs sr_annual : fl)
  : fl * fl :=
  let z_score := t_ppf (of_int 1 - p_val / of_int 2)
                       (monthly_obs - of_int 1) in
  let sr_adjusted := (z_score / sqrt monthly_obs) * sqrt (of_int 12) in
  let haircut := (sr_annual - sr_adjusted) / sr_annual * of_int 100 in
  (sr_adjusted, haircut).

(** The distinct entries of [covariance_matrix]: the Toeplitz matrix of
    [[1, rho, ..., rho]] times [scale]; [rho] occurs from two trials on. *)
Definition covariance_entries (rho : fl) (n_trails : Z) (scale : fl)
  : list fl :=
  (of_int 1 * scale) :: (if (2 <=? n_trails)%Z then [rho * scale] else []).

(** The panel of simulated absolute t-statistics.  The correlation matrix
    only parameterises the normal draw, so of its construction and of the
    three draws the model keeps what can raise, in the order of the
    source: [np.ones((1, n_trails - 1))], the power and the quotient in
    [monthly_volatility ** 2 / n_obs], then in
    [np.random.multivariate_normal] the size of the draw and the
    decomposition of a covariance that is not finite, and
    [np.random.exponential] on a negative scale. *)
Definition _sample_random_multest (rho : fl) (n_trails : Z)
  (prob_zero_mean lambd : fl) (n_simulations : Z)
  (annual_vol : fl) (n_obs : Z) : result ndarray2 :=
  monthly_volatility <- py_div annual_vol (sqrt (of_int 12)) ;;
  _ <- (if (n_trails - 1 <? 0)%Z then Raise ValueError else Ok tt) ;;
  variance <- py_pow monthly_volatility 2 ;;
  variance_of_mean <- py_div variance (of_int n_obs) ;;
  _ <- (if (n_simulations <? 0)%Z then Raise ValueError else Ok tt) ;;
  _ <- (if forallb is_finite (covariance_entries rho n_trails variance_of_mean)
        then Ok tt else Raise LinAlgError) ;;
  _ <- (if lambd <? of_int 0 then Raise ValueError else Ok tt) ;;
  scale <- py_div monthly_volatility (sqrt (of_int n_obs)) ;;
  Ok {| nrows := Z.to_nat n_simulations;
        ncols := Z.to_nat n_trails;
        cell := fun i j =>
          let nonzero_mean := prob_zero_mean <? prob_vec i j in
          let mu_null :=
            (if nonzero_mean then of_int 1 else of_int 0) * mean_vec i j in
          fl_abs (mu_null + shock_mat i j) / scale |}.

(** The number of trials inside a simulation:
    [int((np.floor(num_mult_test / parameters[1]) + 1)
         * np.floor(parameters[1] + 1))]. *)
Definition num_trails (num_mult_test : Z) (parameters : list fl) : result Z :=
  py_int ((np_floor (of_int num_mult_test / item parameters 1) + of_int 1)
          * np_floor (item parameters 1 + of_int 1)).

(** [t_sample[simulation_number - 1, 1:(num_mult_test + 1)]]. *)
Definition t_values_simulation (t_sample : ndarray2)
  (simulation_number num_mult_test : Z) : result (list fl) :=
  row_slice t_sample (simulation_number - 1) 1 (num_mult_test + 1).

Definition p_values_simulation (t_values : list fl) : list fl :=
  map (fun t => of_int 2 * (of_int 1 - norm_cdf t)) t_values.

(** The sorted p-values of one repetition. *)
Definition repetition_p_values (t_sample : ndarray2)
  (simulation_number num_mult_test : Z) (p_val : fl) : result (list fl) :=
  t_values <- t_values_simulation t_sample simulation_number num_mult_test ;;
  Ok (np_sort (p_values_simulation t_values ++ [p_val])).

(** One pass of the loop over the simulations; the state is
    ([p_holm], [p_bhy]).  The progress line printed every hundredth pass
    is left out. *)
Definition simulation_step (t_sample : ndarray2) (num_mult_test : Z)
  (p_val : fl) (st : list fl * list fl) (simulation_number : Z)
  : result (list fl * list fl) :=
  let '(p_holm, p_bhy) := st in
  all_p <- repetition_p_values t_sample simulation_number num_mult_test p_val ;;
  h <- _holm_method all_p num_mult_test p_val ;;
  p_holm' <- np_setitem p_holm (simulation_number - 1) h ;;
  b <- _bhy_method all_p num_mult_test p_val ;;
  b' <- scalar_of b ;;
  p_bhy' <- np_setitem p_bhy (simulation_number - 1) b' ;;
  Ok (p_holm', p_bhy').

(** The Bonferroni adjusted p-value. *)
Definition bonferroni (num_mult_test : Z) (p_val : fl) : fl :=
  np_minimum (of_int num_mult_test * p_val) (of_int 1).

(** The raw p-value of the strategy. *)
Definition raw_p_value (sr_annual monthly_obs : fl) : result fl :=
  sr_monthly <- py_div sr_annual (sqrt (of_int 12)) ;;
  let t_ratio := sr_monthly * sqrt monthly_obs in
  Ok (of_int 2 * (of_int 1 - t_cdf t_ratio (monthly_obs - of_int 1))).

(** The closing lines: the adjusted p-values, and the table. *)
Definition p_val_adj (num_mult_test : Z) (p_val : fl)
  (p_holm p_bhy : list fl) : list fl :=
  let a := [bonferroni num_mult_test p_val; np_median p_holm;
            np_median p_bhy] in
  a ++ [(item a 0 + item a 1 + item a 2) / of_int 3].

Definition results_table (p_val_adj : list fl) (monthly_obs sr_annual : fl)
  : list (list fl) :=
  let hc k := _sharpe_ratio_haircut (item p_val_adj k) monthly_obs sr_annual in
  [ p_val_adj;
    [fst (hc 0%nat); fst (hc 1%nat); fst (hc 2%nat); fst (hc 3%nat)];
    [snd (hc 0%nat); snd (hc 1%nat); snd (hc 2%nat); snd (hc 3%nat)] ].

Definition haircut_sharpe_ratios (self : CampbellBacktesting)
  (sampling_frequency : string) (num_obs : Z) (sharpe_ratio : fl)
  (annualized autocorr_adjusted : bool) (rho_a : fl) (num_mult_test : Z)
  (rho : fl) : result (list (list fl)) :=
  sr_annual <- _annualized_sharpe_ratio sharpe_ratio sampling_frequency rho_a
                 annualized autocorr_adjusted ;;
  let parameters := _parameter_calculation rho in
  let monthly_obs := _monthly_observations num_obs sampling_frequency in
  num_trails <- num_trails num_mult_test parameters ;;
  t_sample <- _sample_random_multest (item parameters 0) num_trails
                (item parameters 2) (item parameters 3) (simulations self)
                (lit 0.15) 240 ;;
  p_val <- raw_p_value sr_annual monthly_obs ;;
  p_holm <- np_ones (simulations self) ;;
  p_bhy <- np_ones (simulations self) ;;
  st <- foldM (simulation_step t_sample num_mult_test p_val)
          (py_range 1 (simulations self + 1)) (p_holm, p_bhy) ;;
  Ok (results_table (p_val_adj num_mult_test p_val (fst st) (snd st))
        monthly_obs sr_annual).

End Campbell.

Close Scope fl_scope.

(* ================================================================== *)
(** ** [_parameter_calculation] over binary64 *)

(** The arithmetic of [_parameter_calculation] is four operations and
    comparisons on float literals, all of which IEEE 754 fixes bit for bit;
    this module reads the function over [PrimFloat], the binary64 floats of
    Python and NumPy. *)
Module B64.

Open Scope float_scope.

Definition vscale (a : float) (v : list float) : list float :=
  map (PrimFloat.mul a) v.

Fixpoint vadd (u v : list float) : list float :=
  match u, v with
  | x :: u', y :: v' => (x + y) :: vadd u' v'
  | _, _ => []
  end.

Definition parameter_levels : list (list float) :=
  [ [0;   1295; 3.9660 * 0.1; 5.4995 * 0.001];
    [0.2; 1377; 4.4589 * 0.1; 5.5508 * 0.001];
    [0.4; 1476; 4.8604 * 0.1; 5.5413 * 0.001];
    [0.6; 1773; 5.9902 * 0.1; 5.5512 * 0.001];
    [0.8; 3109; 8.3901 * 0.1; 5.5956 * 0.001] ].

Definition level (k : nat) : list float := nth k parameter_levels [].

Definition interpolate (rho hi lo : float) (a b : nat) : list float :=
  vadd (vscale ((hi - rho) / 0.2) (level a))
       (vscale ((rho - lo) / 0.2) (level b)).

Definition _parameter_calculation (rho : float) : list float :=
  if rho <? 0 then level 1
  else if rho <? 0.2 then interpolate rho 0.2 0 0 1
  else if rho <? 0.4 then interpolate rho 0.4 0.2 1 2
  else if rho <? 0.6 then interpolate rho 0.6 0.4 2 3
  else if rho <? 0.8 then interpolate rho 0.8 0.6 3 4
  else if rho <? 1.0 then interpolate rho 0.8 0.6 3 4
  else level 1.

(** [np.array_equal] on two rows: the same length and [==] entry by
    entry. *)
Fixpoint array_equal (u v : list float) : bool :=
  match u, v with
  | [], [] => true
  | x :: u', y :: v' => (x =? y) && array_equal u' v'
  | _, _ => false
  end.

Close Scope float_scope.

End B64.

(* ================================================================== *)
(** ** Stand-ins for the section's variables *)

(** Rational stand-ins used where a statement is run on a concrete input:
    a Newton square root, the normal distribution function by the
    Abramowitz-Stegun formula 26.2.18 (also for Student's t), its inverse
    by bisection, and fixed arrays in place of the random draws. *)
Module Toy.

(** Results are cut to a grid of step 2^-20, which keeps them small. *)
Definition grid (q : Q) : Q := Qfloor (q * 1048576) # 1048576.

Fixpoint newton (q y : Q) (n : nat) : Q :=
  match n with
  | O => grid y
  | S n' => newton q (grid ((y + q / y) / 2)) n'
  end.

Definition sqrt (x : fl) : fl :=
  match x with
  | Fin q =>
      if Qzero q then Fin 0
      else if Qneg q then NaN
      else Fin (newton q (Qred ((q + 1) / 2)) 12)
  | Inf false => Inf false
  | _ => NaN
  end.

Definition rsqrt (x : fl) : fl := fl_div (Fin 1) (sqrt x).

Definition tail (x : Q) : Q :=
  let x := grid x in
  let p := 1 + grid (x * (0.196854 + grid (x * (0.115194
             + grid (x * (0.000344 + grid (x * 0.019527))))))) in
  let p2 := grid (p * p) in
  grid (1 / (2 * grid (p2 * p2))).

Definition Phi (x : Q) : Q :=
  if Qneg x then tail (- x) else 1 - tail x.

Definition norm_cdf (x : fl) : fl :=
  match x with
  | Fin q => Fin (Phi q)
  | Inf false => Fin 1
  | Inf true => Fin 0
  | NaN => NaN
  end.

Definition t_cdf (x df : fl) : fl := norm_cdf x.

Fixpoint bisect (q lo hi : Q) (n : nat) : Q :=
  let mid := Qred ((lo + hi) / 2) in
  match n with
  | O => mid
  | S n' =>
      if Qeq_bool (Phi mid) q then mid
      else if Qle_bool (Phi mid) q then bisect q mid hi n'
      else bisect q lo mid n'
  end.

Definition t_ppf (p df : fl) : fl :=
  match p with
  | Fin q =>
      if Qneg q then NaN
      else if Qzero q then Inf true
      else if Qeq_bool q 1 then Inf false
      else if Qle_bool q 1 then Fin (bisect q (-8) 8 24)
      else NaN
  | _ => NaN
  end.

Definition draw (a b m : Z) (i j : nat) : Z :=
  ((Z.of_nat i * a + Z.of_nat j * b) mod m)%Z.

Definition shock_mat (i j : nat) : fl :=
  Fin ((2 * draw 31 17 41 i j - 41) # 10007).

Definition prob_vec (i j : nat) : fl :=
  Fin (draw 13 29 100 i j # 100).

Definition mean_vec (i j : nat) : fl :=
  Fin ((1 + draw 7 3 23 i j) # 2000).

End Toy.

(** The orchestrator on the stand-ins. *)
Abbreviation toy_haircut_sharpe_ratios :=
  (haircut_sharpe_ratios Toy.sqrt Toy.rsqrt Toy.t_cdf Toy.t_ppf Toy.norm_cdf
     Toy.shock_mat Toy.prob_vec Toy.mean_vec).

(** An object whose repetition count was lowered after construction
    ([backtest.simulations = 20]), to keep the runs below short. *)
Definition short_backtest : CampbellBacktesting := {| simulations := 20 |}.


(* ================================================================== *)
(** * Properties *)

(** ** Comparisons and arithmetic of finite floats *)

Lemma fl_ltb_Fin (a b : Q) : fl_ltb (Fin a) (Fin b) = true <-> (a < b)%Q.
Proof. apply Qltb_true. Qed.

Lemma fl_ltb_Fin_false (a b : Q) : fl_ltb (Fin a) (Fin b) = false <-> (b <= a)%Q.
Proof.
  simpl. rewrite negb_false_iff. apply Qle_bool_iff.
Qed.

Lemma fl_leb_Fin (a b : Q) : fl_leb (Fin a) (Fin b) = true <-> (a <= b)%Q.
Proof.
  unfold fl_leb. rewrite orb_true_iff, fl_ltb_Fin. simpl. rewrite Qeqb_true.
  split.
  - intros [H | H]; [apply Qlt_le_weak, H | rewrite H; apply Qle_refl].
  - intro H. destruct (Qle_lt_or_eq _ _ H); auto.
Qed.

Lemma Qzero_true (a : Q) : Qzero a = true <-> (a == 0)%Q.
Proof. apply Qeq_bool_iff. Qed.

Lemma Qzero_false (a : Q) : Qzero a = false <-> ~ (a == 0)%Q.
Proof.
  unfold Qzero. split.
  - intros H E. apply Qeq_bool_iff in E. congruence.
  - intro H. destruct (Qeq_bool a 0) eqn:E; [| reflexivity].
    apply Qeq_bool_iff in E. contradiction.
Qed.

Lemma Qzero_inject_Z (z : Z) : z <> 0%Z -> Qzero (inject_Z z) = false.
Proof.
  intro H. apply Qzero_false. intro E. apply H.
  unfold Qeq in E. simpl in E. lia.
Qed.

Lemma Qmul_1_r_eq (q : Q) : (q * inject_Z 1)%Q = q.
Proof.
  destruct q as [n d]. unfold Qmult, inject_Z. simpl.
  now rewrite Z.mul_1_r, Pos.mul_1_r.
Qed.

Lemma fl_mul_1_r (x : fl) : fl_mul x (of_int 1) = x.
Proof.
  destruct x as [q | s |]; simpl; [| | reflexivity].
  - now rewrite Qmul_1_r_eq.
  - now rewrite xorb_false_r.
Qed.

Lemma py_min_Fin (a b : Q) :
  py_min (Fin a) (Fin b) = Fin (if fl_ltb (Fin b) (Fin a) then b else a).
Proof. unfold py_min. now destruct (fl_ltb (Fin b) (Fin a)). Qed.

Lemma py_max_Fin (a b : Q) :
  py_max (Fin a) (Fin b) = Fin (if fl_ltb (Fin a) (Fin b) then b else a).
Proof. unfold py_max. now destruct (fl_ltb (Fin a) (Fin b)). Qed.

(* ------------------------------------------------------------------ *)
(** ** The frequency normaliser *)

(** C7. For every Sharpe ratio, every frequency code (the five valid ones
    and any other string) and every autocorrelation,
    [_annualized_sharpe_ratio] called with [annualized = True] and
    [autocorr_adjusted = True] returns the Sharpe ratio it was given: both
    multipliers are 1. *)
Theorem annualized_autocorr_adjusted_is_identity :
  forall (sqrt rsqrt : fl -> fl) (sharpe_ratio : fl)
         (sampling_frequency : string) (rho : fl),
    _annualized_sharpe_ratio sqrt rsqrt sharpe_ratio sampling_frequency rho
      true true = Ok sharpe_ratio.
Proof.
  intros. unfold _annualized_sharpe_ratio. simpl.
  now rewrite !fl_mul_1_r.
Qed.

(* ------------------------------------------------------------------ *)
(** ** The frequency lookups *)

Definition frequency_codes : list string :=
  ["D"; "W"; "M"; "Q"; "A"]%string.

Lemma eqb_other (s c : string) : s <> c -> String.eqb s c = false.
Proof. intro H. now apply String.eqb_neq. Qed.

Lemma Qfloor_quot (n : Z) (d : positive) :
  Qfloor (inject_Z (n * Zpos d) / inject_Z (Zpos d)) = n.
Proof.
  unfold Qdiv, Qmult, Qinv, inject_Z, Qfloor. simpl.
  rewrite Z.mul_1_r. apply Z.div_mul. discriminate.
Qed.

Lemma fl_div_int (a : Q) (z : Z) :
  z <> 0%Z -> fl_div (Fin a) (of_int z) = Fin (a / inject_Z z).
Proof. intro H. unfold fl_div, of_int. now rewrite Qzero_inject_Z. Qed.

Lemma monthly_observations_M (num_obs : Z) :
  _monthly_observations num_obs "M" = of_int num_obs.
Proof.
  unfold _monthly_observations. simpl String.eqb. cbv iota.
  unfold of_int at 1. rewrite fl_div_int by discriminate.
  unfold np_floor. now rewrite (Qfloor_quot num_obs 12).
Qed.

Lemma monthly_observations_A (num_obs : Z) :
  _monthly_observations num_obs "A" = of_int (num_obs * 12).
Proof.
  unfold _monthly_observations. simpl String.eqb. cbv iota.
  unfold of_int at 1. rewrite fl_div_int by discriminate.
  unfold np_floor.
  rewrite <- (Z.mul_1_r (num_obs * 12)) at 1.
  now rewrite (Qfloor_quot (num_obs * 12) 1).
Qed.

Lemma monthly_observations_other (num_obs : Z) (sf : string) :
  ~ In sf frequency_codes -> _monthly_observations num_obs sf = of_int num_obs.
Proof.
  intro H. unfold _monthly_observations.
  rewrite !eqb_other by (intro E; apply H; subst; simpl; tauto).
  unfold np_floor, of_int. now rewrite Qfloor_Z.
Qed.

(** C3, as the code has it. For a sampling frequency outside
    ['D','W','M','Q','A'], [_annualized_sharpe_ratio] works with
    [times_per_year = 1] and so returns what it returns for 'A'; but
    [_monthly_observations] returns [floor(num_obs)], which is its answer
    for 'M', while for 'A' it returns [floor(num_obs * 12)]. *)
Theorem misspecified_frequency :
  forall sampling_frequency : string,
    ~ In sampling_frequency frequency_codes ->
    times_per_year sampling_frequency = 1%Z
    /\ (forall sqrt rsqrt sharpe_ratio rho annualized autocorr_adjusted,
          _annualized_sharpe_ratio sqrt rsqrt sharpe_ratio sampling_frequency
            rho annualized autocorr_adjusted
          = _annualized_sharpe_ratio sqrt rsqrt sharpe_ratio "A"
              rho annualized autocorr_adjusted)
    /\ (forall num_obs,
          _monthly_observations num_obs sampling_frequency = of_int num_obs
          /\ _monthly_observations num_obs "M" = of_int num_obs
          /\ _monthly_observations num_obs "A" = of_int (num_obs * 12)).
Proof.
  intros sf H.
  assert (T : times_per_year sf = 1%Z).
  { unfold times_per_year.
    now rewrite !eqb_other by (intro E; apply H; subst; simpl; tauto). }
  split; [exact T | split].
  - intros. unfold _annualized_sharpe_ratio. now rewrite T.
  - intro n. split; [| split].
    + now apply monthly_observations_other.
    + apply monthly_observations_M.
    + apply monthly_observations_A.
Qed.

Lemma misspecified_frequency_witness :
  ~ In "X"%string frequency_codes
  /\ times_per_year "X" = 1%Z
  /\ _monthly_observations 10 "X" = of_int 10.
Proof.
  assert (H : ~ In "X"%string frequency_codes).
  { simpl. intros [E | [E | [E | [E | [E | []]]]]]; discriminate E. }
  split; [exact H |].
  destruct (misspecified_frequency "X" H) as [T [_ M]].
  split; [exact T | exact (proj1 (M 10%Z))].
Defined.

(** C3 as stated fails: with ten observations at an unrecognised
    frequency [_monthly_observations] answers 10, at 'A' it answers 120. *)
Lemma misspecified_frequency_is_not_annual :
  _monthly_observations 10 "X" = of_int 10
  /\ _monthly_observations 10 "A" = of_int 120
  /\ fl_eqb (_monthly_observations 10 "X") (_monthly_observations 10 "A")
     = false.
Proof. repeat split; reflexivity. Qed.

(* ------------------------------------------------------------------ *)
(** ** Bonferroni *)

Lemma bonferroni_Fin (M : Z) (p : Q) :
  bonferroni M (Fin p)
  = Fin (if fl_ltb (Fin (inject_Z 1)) (Fin (inject_Z M * p))
         then inject_Z 1 else (inject_Z M * p)%Q).
Proof.
  unfold bonferroni, np_minimum, of_int. simpl is_nan. cbv iota.
  change (fl_mul (Fin (inject_Z M)) (Fin p)) with (Fin (inject_Z M * p)).
  now destruct (fl_ltb (Fin (inject_Z 1)) (Fin (inject_Z M * p))).
Qed.

Lemma scale_le (M M' : Z) (p : Q) :
  (0 <= p)%Q -> (M <= M')%Z -> (inject_Z M * p <= inject_Z M' * p)%Q.
Proof.
  intros Hp HM. apply Qmult_le_compat_r; [| exact Hp].
  now rewrite <- Zle_Qle.
Qed.





(** Outside the range of a p-value the first bound is lost: the raw value
    [2 * (1 - t_cdf(t_ratio))] of a strategy with a negative Sharpe ratio
    lies above 1, and the cap at 1 brings it down. *)
Remark bonferroni_of_value_above_one :
  bonferroni 100 (Fin 1.5) = of_int 1
  /\ fl_leb (Fin 1.5) (bonferroni 100 (Fin 1.5)) = false.
Proof. split; reflexivity. Qed.

(* ------------------------------------------------------------------ *)
(** ** The parameter table *)

Lemma parameter_at_anchor_02 :
  Forall2 fl_equiv (_parameter_calculation (lit 0.2)) (level 1).
Proof. repeat constructor. Qed.

Lemma parameter_at_anchor_04 :
  Forall2 fl_equiv (_parameter_calculation (lit 0.4)) (level 2).
Proof. repeat constructor. Qed.

(** C8, as the code has it. At [rho = 0.2] the function returns the
    literal table row exactly: the weights [(0.4 - 0.2) / 0.2] and
    [(0.2 - 0.2) / 0.2] are the floats 1 and 0.  At [rho = 0.4] the weight
    [(0.6 - 0.4) / 0.2] is the float 0.9999999999999998, and every entry of
    the returned row lies just below the table's; the two rows are equal
    in exact arithmetic. *)
Theorem parameter_calculation_at_anchors :
  B64._parameter_calculation 0.2 = B64.level 1
  /\ ((0.6 - 0.4) / 0.2 = 0.9999999999999998)%float
  /\ B64._parameter_calculation 0.4
     = B64.vscale 0.9999999999999998%float (B64.level 2)
  /\ B64._parameter_calculation 0.4
     = [0.3999999999999999; 1475.9999999999998;
        0.4860399999999999; 0.0055412999999999992]%float
  /\ B64.level 2 = [0.4; 1476; 0.48604; 0.0055413]%float
  /\ Forall2 fl_equiv (_parameter_calculation (lit 0.2)) (level 1)
  /\ Forall2 fl_equiv (_parameter_calculation (lit 0.4)) (level 2).
Proof.
  repeat split; try (vm_compute; reflexivity).
  - exact parameter_at_anchor_02.
  - exact parameter_at_anchor_04.
Qed.

(** C8 as stated fails at [rho = 0.4]: the row the function returns is
    not the table's row, and no entry of it equals the table's entry. *)
Lemma parameter_calculation_misses_anchor_04 :
  B64.array_equal (B64._parameter_calculation 0.4) (B64.level 2) = false
  /\ map (fun k => PrimFloat.eqb (nth k (B64._parameter_calculation 0.4) 0%float)
                                 (nth k (B64.level 2) 0%float))
         [0; 1; 2; 3]%nat
     = [false; false; false; false].
Proof. split; vm_compute; reflexivity. Qed.

(* ------------------------------------------------------------------ *)
(** ** The comparison statistics of one repetition *)

Lemma firstn_of_seq (n : nat) : forall start len : nat,
  (n <= len)%nat -> firstn n (seq start len) = seq start n.
Proof.
  induction n as [| n IH]; intros start len H; [reflexivity |].
  destruct len as [| len]; [lia |].
  simpl. f_equal. apply IH. lia.
Qed.

Lemma slice_of_row (a : ndarray2) (r start len : nat) :
  (start + len <= ncols a)%nat ->
  map (cell a r) (seq start len) = firstn len (skipn start (row a r)).
Proof.
  intro H. unfold row.
  rewrite skipn_map, firstn_map, skipn_seq, firstn_of_seq by lia.
  reflexivity.
Qed.

Lemma row_slice_from_one (a : ndarray2) (r m : Z) :
  (0 <= r < Z.of_nat (nrows a))%Z -> (0 <= m)%Z ->
  (m + 1 <= Z.of_nat (ncols a))%Z ->
  row_slice a r 1 (m + 1)
  = Ok (firstn (Z.to_nat m) (skipn 1 (row a (Z.to_nat r)))).
Proof.
  intros Hr Hm Hc. unfold row_slice.
  replace (r <? 0)%Z with false by (symmetry; apply Z.ltb_ge; lia).
  replace ((r <? 0) || (Z.of_nat (nrows a) <=? r))%Z with false
    by (symmetry; apply orb_false_iff; split;
        [apply Z.ltb_ge | apply Z.leb_gt]; lia).
  unfold py_slice_bounds, slice_bound.
  replace (1 <? 0)%Z with false by reflexivity.
  replace (m + 1 <? 0)%Z with false by (symmetry; apply Z.ltb_ge; lia).
  rewrite !Z.min_l by lia.
  replace (m + 1 - 1)%Z with m by lia.
  change (Z.to_nat 1) with 1%nat.
  rewrite slice_of_row by lia. reflexivity.
Qed.

(** What the slice [t_sample[simulation_number - 1, 1:(num_mult_test + 1)]]
    takes in a repetition: the [num_mult_test] entries of the row that
    follow its first entry (positions 1 to [num_mult_test], counted from
    0).  Their p-values, with the real strategy's p-value appended and the
    whole sorted, are the array handed to the two methods. *)
Lemma simulated_trials_skip_first_entry :
  forall (norm_cdf : fl -> fl) (t_sample : ndarray2)
         (simulation_number num_mult_test : Z) (p_val : fl),
    (1 <= simulation_number <= Z.of_nat (nrows t_sample))%Z ->
    (0 <= num_mult_test)%Z ->
    (num_mult_test + 1 <= Z.of_nat (ncols t_sample))%Z ->
    let others :=
      firstn (Z.to_nat num_mult_test)
        (skipn 1 (row t_sample (Z.to_nat (simulation_number - 1)))) in
    t_values_simulation t_sample simulation_number num_mult_test = Ok others
    /\ length others = Z.to_nat num_mult_test
    /\ repetition_p_values norm_cdf t_sample simulation_number num_mult_test
         p_val
       = Ok (np_sort (p_values_simulation norm_cdf others ++ [p_val])).
Proof.
  intros norm_cdf a sim M p_val Hs HM Hc others.
  assert (E : t_values_simulation a sim M = Ok others).
  { unfold t_values_simulation. now rewrite row_slice_from_one by lia. }
  split; [exact E | split].
  - unfold others. rewrite length_firstn, length_skipn.
    unfold row. rewrite length_map, length_seq. lia.
  - unfold repetition_p_values. now rewrite E.
Qed.

(** A panel with one row, [0, 1, 2, 3]. *)
Definition counting_panel : ndarray2 :=
  {| nrows := 1; ncols := 4; cell := fun _ j => of_int (Z.of_nat j) |}.

(** C2. The loop numbers the repetitions from 1 and shifts the row index
    by one, but not the column slice: of the row [0, 1, 2, 3] and two
    tests it takes [1, 2], where the first two entries are [0, 1].  The
    first entry of a row is never among the other trials. *)
Theorem simulated_trials_are_not_the_first_entries :
  t_values_simulation counting_panel 1 2 = Ok [of_int 1; of_int 2]
  /\ firstn 2 (row counting_panel 0) = [of_int 0; of_int 1]
  /\ t_values_simulation counting_panel 1 2
     <> Ok (firstn 2 (row counting_panel 0))
  /\ (forall (norm_cdf : fl -> fl) (p_val : fl),
        repetition_p_values norm_cdf counting_panel 1 2 p_val
        = Ok (np_sort (p_values_simulation norm_cdf [of_int 1; of_int 2]
                       ++ [p_val]))).
Proof.
  split; [reflexivity | split; [reflexivity | split; [discriminate |]]].
  intros norm_cdf p_val.
  exact (proj2 (proj2 (simulated_trials_skip_first_entry norm_cdf
                         counting_panel 1 2 p_val
                         ltac:(simpl; lia) ltac:(lia) ltac:(simpl; lia)))).
Qed.

(* ------------------------------------------------------------------ *)
(** ** The number of trials *)

Lemma num_trails_Fin (M : Z) (parameters : list fl) (n : Q) :
  item parameters 1 = Fin n -> (0 < n)%Q ->
  num_trails M parameters
  = Ok ((Qfloor (inject_Z M / n) + 1) * Qfloor (n + inject_Z 1))%Z.
Proof.
  intros E Hn. unfold num_trails. rewrite E.
  unfold of_int at 1, fl_div.
  replace (Qzero n) with false
    by (symmetry; apply Qzero_false; intro Z0; rewrite Z0 in Hn;
        exact (Qlt_irrefl _ Hn)).
  unfold np_floor, fl_add at 2. unfold of_int at 3.
  set (f := Qfloor (inject_Z M / n)). set (g := Qfloor (n + inject_Z 1)).
  unfold of_int, fl_add, fl_mul, py_int. f_equal.
  unfold Qplus, Qmult, inject_Z. simpl.
  rewrite Z.quot_1_r. ring.
Qed.

Lemma floors_cover (M : Z) (n : Q) :
  (0 < M)%Z -> (0 < n)%Q ->
  (M + 1 <= (Qfloor (inject_Z M / n) + 1) * Qfloor (n + inject_Z 1))%Z.
Proof.
  intros HM Hn.
  set (f := Qfloor (inject_Z M / n)). set (g := Qfloor (n + inject_Z 1)).
  assert (Hf : (inject_Z M / n < inject_Z (f + 1))%Q) by apply Qlt_floor.
  assert (Hg : (n + inject_Z 1 < inject_Z (g + 1))%Q) by apply Qlt_floor.
  rewrite inject_Z_plus in Hf, Hg.
  assert (Hq : (0 < inject_Z M / n)%Q).
  { apply Qlt_shift_div_l; [exact Hn |]. rewrite Qmult_0_l.
    change 0%Q with (inject_Z 0). now rewrite <- Zlt_Qlt. }
  assert (HMq : (inject_Z M == inject_Z M / n * n)%Q).
  { field. intro Z0. rewrite Z0 in Hn. exact (Qlt_irrefl _ Hn). }
  assert (HQ : (inject_Z M < inject_Z ((f + 1) * g))%Q).
  { rewrite inject_Z_mult, inject_Z_plus. rewrite HMq.
    simpl (inject_Z 1) in *. nra. }
  rewrite <- Zlt_Qlt in HQ. lia.
Qed.

Lemma interpolate_item_1 (q hi lo a b : Q) (i j : nat) :
  item (level i) 1 = Fin a -> item (level j) 1 = Fin b ->
  length (level i) = 4%nat -> length (level j) = 4%nat ->
  item (interpolate (Fin q) (Fin hi) (Fin lo) i j) 1
  = Fin ((hi + - q) / 0.2 * a + (q + - lo) / 0.2 * b).
Proof.
  intros Ea Eb La Lb. unfold interpolate, item in *.
  destruct (level i) as [| x0 [| x1 [| x2 [| x3 [| ? ?]]]]]; try discriminate.
  destruct (level j) as [| y0 [| y1 [| y2 [| y3 [| ? ?]]]]]; try discriminate.
  simpl in *. subst x1 y1. reflexivity.
Qed.

Lemma Qdiv_fifth (x : Q) : (x / 0.2 == x * 5)%Q.
Proof. field. Qed.

Lemma parameter_n_trials_positive (rho : fl) :
  exists n : Q,
    item (_parameter_calculation rho) 1 = Fin n /\ (1295 <= n)%Q.
Proof.
  assert (F : exists n : Q, item (level 1) 1 = Fin n /\ (1295 <= n)%Q).
  { exists (inject_Z 1377). split; [reflexivity | discriminate]. }
  unfold _parameter_calculation.
  destruct rho as [q | s |]; [| destruct s; exact F | exact F].
  unfold lit, of_int.
  destruct (fl_ltb (Fin q) (Fin (inject_Z 0))) eqn:E0; [exact F |].
  apply fl_ltb_Fin_false in E0.
  destruct (fl_ltb (Fin q) (Fin 0.2)) eqn:E1.
  { apply fl_ltb_Fin in E1. eexists. split.
    - now apply (interpolate_item_1 q 0.2 (inject_Z 0)
                   (inject_Z 1295) (inject_Z 1377) 0 1).
    - unfold inject_Z in *. rewrite !Qdiv_fifth. lra. }
  apply fl_ltb_Fin_false in E1.
  destruct (fl_ltb (Fin q) (Fin 0.4)) eqn:E2.
  { apply fl_ltb_Fin in E2. eexists. split.
    - now apply (interpolate_item_1 q 0.4 0.2
                   (inject_Z 1377) (inject_Z 1476) 1 2).
    - unfold inject_Z in *. rewrite !Qdiv_fifth. lra. }
  apply fl_ltb_Fin_false in E2.
  destruct (fl_ltb (Fin q) (Fin 0.6)) eqn:E3.
  { apply fl_ltb_Fin in E3. eexists. split.
    - now apply (interpolate_item_1 q 0.6 0.4
                   (inject_Z 1476) (inject_Z 1773) 2 3).
    - unfold inject_Z in *. rewrite !Qdiv_fifth. lra. }
  apply fl_ltb_Fin_false in E3.
  destruct (fl_ltb (Fin q) (Fin 0.8)) eqn:E4.
  { apply fl_ltb_Fin in E4. eexists. split.
    - now apply (interpolate_item_1 q 0.8 0.6
                   (inject_Z 1773) (inject_Z 3109) 3 4).
    - unfold inject_Z in *. rewrite !Qdiv_fifth. lra. }
  apply fl_ltb_Fin_false in E4.
  destruct (fl_ltb (Fin q) (Fin 1.0)) eqn:E5; [| exact F].
  apply fl_ltb_Fin in E5. eexists. split.
  - now apply (interpolate_item_1 q 0.8 0.6
                 (inject_Z 1773) (inject_Z 3109) 3 4).
  - unfold inject_Z in *. rewrite !Qdiv_fifth. lra.
Qed.

(** C4. For a positive [num_mult_test] and a positive [n_trials] entry of
    the parameters (every row [_parameter_calculation] returns has one,
    at least 1295), the orchestrator's
    [int((floor(num_mult_test / n) + 1) * floor(n + 1))] is computed
    without error and is at least [num_mult_test + 1]: a row of the panel
    holds [num_mult_test] statistics after its first entry. *)
Theorem num_trails_covers_num_mult_test :
  forall (num_mult_test : Z) (parameters : list fl) (n : Q),
    (0 < num_mult_test)%Z ->
    item parameters 1 = Fin n -> (0 < n)%Q ->
    (exists trails : Z,
       num_trails num_mult_test parameters = Ok trails
       /\ (num_mult_test + 1 <= trails)%Z)
    /\ (forall rho : fl,
          exists trails : Z,
            num_trails num_mult_test (_parameter_calculation rho) = Ok trails
            /\ (num_mult_test + 1 <= trails)%Z).
Proof.
  intros M parameters n HM E Hn. split.
  - rewrite (num_trails_Fin M parameters n E Hn).
    eexists. split; [reflexivity | now apply floors_cover].
  - intro rho.
    destruct (parameter_n_trials_positive rho) as [m [Em Hm]].
    assert (Hm0 : (0 < m)%Q) by lra.
    rewrite (num_trails_Fin M _ m Em Hm0).
    eexists. split; [reflexivity | now apply floors_cover].
Qed.

Lemma num_trails_covers_num_mult_test_witness :
  exists trails : Z,
    num_trails 100 (_parameter_calculation (lit 0.4)) = Ok trails
    /\ (101 <= trails)%Z.
Proof.
  refine (proj1 (num_trails_covers_num_mult_test 100
                   (_parameter_calculation (lit 0.4)) (59040000 # 40000)
                   _ _ _)).
  - lia.
  - vm_compute. reflexivity.
  - reflexivity.
Defined.

(* ------------------------------------------------------------------ *)
(** ** Loops and indexing *)

Lemma mapM_ok {A B : Type} (f : A -> result B) (g : A -> B) (l : list A) :
  (forall x, In x l -> f x = Ok (g x)) -> mapM f l = Ok (map g l).
Proof.
  induction l as [| a l IH]; intro H; [reflexivity |].
  simpl. rewrite (H a) by (left; reflexivity). simpl.
  rewrite IH by (intros x Hx; apply H; right; exact Hx). reflexivity.
Qed.

Lemma py_index_ok {A : Type} (l : list A) (i : Z) (d : A) :
  (0 <= i < Z.of_nat (length l))%Z ->
  py_index l i = Ok (nth (Z.to_nat i) l d).
Proof.
  intro H. unfold py_index.
  replace (i <? 0)%Z with false by (symmetry; apply Z.ltb_ge; lia).
  replace ((i <? 0) || (Z.of_nat (length l) <=? i))%Z with false
    by (symmetry; apply orb_false_iff; split;
        [apply Z.ltb_ge | apply Z.leb_gt]; lia).
  destruct (nth_error l (Z.to_nat i)) as [x |] eqn:E.
  - now rewrite (nth_error_nth _ _ d E).
  - apply nth_error_None in E. lia.
Qed.

Lemma py_index_last {A : Type} (l : list A) (d : A) :
  l <> [] -> py_index l (-1) = Ok (nth (length l - 1) l d).
Proof.
  intro H. unfold py_index.
  replace (-1 <? 0)%Z with true by reflexivity.
  assert (L : (0 < length l)%nat) by (destruct l; [contradiction | simpl; lia]).
  replace ((-1 + Z.of_nat (length l) <? 0)
           || (Z.of_nat (length l) <=? -1 + Z.of_nat (length l)))%Z
    with false
    by (symmetry; apply orb_false_iff; split;
        [apply Z.ltb_ge | apply Z.leb_gt]; lia).
  replace (Z.to_nat (-1 + Z.of_nat (length l))) with (length l - 1)%nat by lia.
  destruct (nth_error l (length l - 1)) as [x |] eqn:E.
  - now rewrite (nth_error_nth _ _ d E).
  - apply nth_error_None in E. lia.
Qed.

Lemma py_range_cons (lo hi : Z) :
  (lo < hi)%Z -> py_range lo hi = lo :: py_range (lo + 1) hi.
Proof.
  intro H. unfold py_range.
  replace (Z.to_nat (hi - lo)) with (S (Z.to_nat (hi - (lo + 1)))) by lia.
  simpl. f_equal; [lia |].
  rewrite <- seq_shift, map_map. apply map_ext. intro k. lia.
Qed.

Lemma py_range_snoc (lo hi : Z) :
  (lo <= hi)%Z -> py_range lo (hi + 1) = py_range lo hi ++ [hi].
Proof.
  intro H. unfold py_range.
  replace (Z.to_nat (hi + 1 - lo)) with (Z.to_nat (hi - lo) + 1)%nat by lia.
  rewrite seq_app, map_app. simpl. f_equal. f_equal. lia.
Qed.

Lemma py_range_In (lo hi k : Z) :
  In k (py_range lo hi) <-> (lo <= k < hi)%Z.
Proof.
  unfold py_range. rewrite in_map_iff. split.
  - intros [n [E Hn]]. apply in_seq in Hn. lia.
  - intro H. exists (Z.to_nat (k - lo)). split; [lia |].
    apply in_seq. lia.
Qed.

Lemma py_range_length (lo hi : Z) :
  length (py_range lo hi) = Z.to_nat (hi - lo).
Proof. unfold py_range. now rewrite length_map, length_seq. Qed.

Lemma py_range_down_cons (hi lo : Z) :
  (lo < hi)%Z -> py_range_down hi lo = hi :: py_range_down (hi - 1) lo.
Proof.
  intro H. unfold py_range_down.
  replace (Z.to_nat (hi - lo)) with (S (Z.to_nat (hi - 1 - lo))) by lia.
  simpl. f_equal; [lia |].
  rewrite <- seq_shift, map_map. apply map_ext. intro k. lia.
Qed.

Lemma py_range_down_In (hi lo k : Z) :
  In k (py_range_down hi lo) <-> (lo < k <= hi)%Z.
Proof.
  unfold py_range_down. rewrite in_map_iff. split.
  - intros [n [E Hn]]. apply in_seq in Hn. lia.
  - intro H. exists (Z.to_nat (hi - k)). split; [lia |].
    apply in_seq. lia.
Qed.

Lemma py_range_down_length (hi lo : Z) :
  length (py_range_down hi lo) = Z.to_nat (hi - lo).
Proof. unfold py_range_down. now rewrite length_map, length_seq. Qed.

(** The number of [True] entries of a mask, and the size of a masked
    selection. *)
Definition count_true (mask : list bool) : nat :=
  length (filter (fun b => b) mask).

Lemma select_length {A : Type} (values : list A) :
  forall mask, length values = length mask ->
               length (select values mask) = count_true mask.
Proof.
  unfold count_true.
  induction values as [| v vs IH]; intros [| b bs] H; try discriminate;
    [reflexivity |].
  simpl in *. destruct b; simpl; [f_equal |]; apply IH; lia.
Qed.

Lemma np_mask_ok {A : Type} (values : list A) (mask : list bool) :
  length values = length mask ->
  np_mask values mask = Ok (select values mask).
Proof.
  intro H. unfold np_mask. now rewrite H, Nat.eqb_refl.
Qed.

(* ------------------------------------------------------------------ *)
(** ** The order of floats *)

Definition fl_le (x y : fl) : Prop := fl_leb x y = true.

(** An array is non-decreasing in rank order when every entry is at most
    every later one. *)
Definition nondecreasing (l : list fl) : Prop := StronglySorted fl_le l.

Definition finite (x : fl) : Prop := is_finite x = true.

Lemma finite_Fin (x : fl) : finite x -> exists q, x = Fin q.
Proof. destruct x; try discriminate. intros _. now eexists. Qed.

Lemma fl_le_refl (x : fl) : finite x -> fl_le x x.
Proof.
  intro H. destruct (finite_Fin x H) as [q ->].
  apply fl_leb_Fin, Qle_refl.
Qed.

Lemma fl_le_trans : Transitive fl_le.
Proof.
  intros x y z. unfold fl_le.
  destruct x as [a | [] |], y as [b | [] |], z as [c | [] |];
    try discriminate; try reflexivity.
  rewrite !fl_leb_Fin. apply Qle_trans.
Qed.

Lemma py_max_finite (m a : fl) : finite m -> finite a -> finite (py_max m a).
Proof. intros Hm Ha. unfold py_max. now destruct (fl_ltb m a). Qed.

Lemma py_max_ge (m a : fl) : finite m -> finite a -> fl_le m (py_max m a).
Proof.
  intros Hm Ha.
  destruct (finite_Fin m Hm) as [p ->]. destruct (finite_Fin a Ha) as [q ->].
  unfold py_max. destruct (fl_ltb (Fin p) (Fin q)) eqn:E.
  - apply fl_ltb_Fin in E. apply fl_leb_Fin. now apply Qlt_le_weak.
  - apply fl_leb_Fin, Qle_refl.
Qed.

Lemma py_min_finite (a b : fl) : finite a -> finite b -> finite (py_min a b).
Proof. intros Ha Hb. unfold py_min. now destruct (fl_ltb b a). Qed.

Lemma py_min_le_r (a b : fl) : finite a -> finite b -> fl_le (py_min a b) b.
Proof.
  intros Ha Hb.
  destruct (finite_Fin a Ha) as [p ->]. destruct (finite_Fin b Hb) as [q ->].
  unfold py_min. destruct (fl_ltb (Fin q) (Fin p)) eqn:E.
  - apply fl_leb_Fin, Qle_refl.
  - apply fl_ltb_Fin_false in E. now apply fl_leb_Fin.
Qed.

Lemma py_min_mono (m m' c : fl) :
  finite m -> finite m' -> finite c ->
  fl_le m m' -> fl_le (py_min m c) (py_min m' c).
Proof.
  intros Hm Hm' Hc.
  destruct (finite_Fin m Hm) as [p ->]. destruct (finite_Fin m' Hm') as [q ->].
  destruct (finite_Fin c Hc) as [r ->].
  unfold fl_le, py_min. rewrite fl_leb_Fin. intro H.
  destruct (fl_ltb (Fin r) (Fin p)) eqn:E1;
    destruct (fl_ltb (Fin r) (Fin q)) eqn:E2; apply fl_leb_Fin.
  - apply Qle_refl.
  - apply fl_ltb_Fin in E1. apply fl_ltb_Fin_false in E2.
    exfalso. apply (Qlt_not_le _ _ E1). now apply Qle_trans with q.
  - apply fl_ltb_Fin_false in E1. exact E1.
  - exact H.
Qed.

Lemma fold_max_finite (l : list fl) :
  forall x, finite x -> Forall finite l -> finite (fold_left py_max l x).
Proof.
  induction l as [| a l IH]; intros x Hx Hl; [exact Hx |].
  inversion Hl; subst. simpl. apply IH; [now apply py_max_finite | assumption].
Qed.

Lemma sorted_over_range (h : Z -> fl) (hi : Z) (n : nat) :
  forall lo : Z,
    n = Z.to_nat (hi - lo) ->
    (forall k, (lo <= k)%Z -> (k + 1 < hi)%Z -> fl_le (h k) (h (k + 1)%Z)) ->
    Sorted fl_le (map h (py_range lo hi)).
Proof.
  induction n as [| n IH]; intros lo Hn H.
  - unfold py_range. rewrite <- Hn. constructor.
  - rewrite py_range_cons by lia. simpl. constructor.
    + apply IH; [lia |]. intros k Hk1 Hk2. apply H; lia.
    + destruct n as [| n].
      * unfold py_range. replace (Z.to_nat (hi - (lo + 1))) with 0%nat by lia.
        constructor.
      * rewrite py_range_cons by lia. simpl. constructor. apply H; lia.
Qed.

Lemma sorted_nondecreasing (l : list fl) : Sorted fl_le l -> nondecreasing l.
Proof. apply Sorted_StronglySorted, fl_le_trans. Qed.

(* ------------------------------------------------------------------ *)
(** ** The Holm array *)

(** The [j]-th adjusted value [(M - j + 2) * p_(j)] and the running
    maximum of the first [i] of them. *)
Definition holm_term (all_p_values : list fl) (M j : Z) : fl :=
  fl_mul (of_int (M + 1 - j + 1)) (nth (Z.to_nat (j - 1)) all_p_values NaN).

Definition holm_running_max (all_p_values : list fl) (M i : Z) : fl :=
  fold_left py_max (map (holm_term all_p_values M) (py_range 2 (i + 1)))
    (holm_term all_p_values M 1).

Lemma holm_adjusted_ok (all_p_values : list fl) (M i : Z) :
  (i <= Z.of_nat (length all_p_values))%Z ->
  holm_adjusted all_p_values M i
  = Ok (map (holm_term all_p_values M) (py_range 1 (i + 1))).
Proof.
  intro H. unfold holm_adjusted. apply mapM_ok.
  intros j Hj. apply py_range_In in Hj.
  rewrite (py_index_ok _ _ NaN) by lia. reflexivity.
Qed.

Lemma holm_values_ok (all_p_values : list fl) (M : Z) :
  (0 <= M)%Z -> Z.of_nat (length all_p_values) = (M + 1)%Z ->
  holm_values all_p_values M
  = Ok (map (fun i => py_min (holm_running_max all_p_values M i) (of_int 1))
            (py_range 1 (M + 2))).
Proof.
  intros HM HL. unfold holm_values. apply mapM_ok.
  intros i Hi. apply py_range_In in Hi.
  rewrite holm_adjusted_ok by lia.
  rewrite py_range_cons by lia. reflexivity.
Qed.

Lemma holm_running_max_step (all_p_values : list fl) (M i : Z) :
  (1 <= i)%Z ->
  holm_running_max all_p_values M (i + 1)
  = py_max (holm_running_max all_p_values M i)
           (holm_term all_p_values M (i + 1)).
Proof.
  intro H. unfold holm_running_max.
  rewrite (py_range_snoc 2 (i + 1)) by lia.
  now rewrite map_app, fold_left_app.
Qed.

Lemma holm_term_finite (ps : list Q) (M j : Z) :
  (1 <= j <= Z.of_nat (length ps))%Z -> finite (holm_term (map Fin ps) M j).
Proof.
  intro H. unfold holm_term.
  rewrite (nth_indep _ NaN (Fin 0)) by (rewrite length_map; lia).
  now rewrite (map_nth Fin ps 0%Q).
Qed.

Lemma holm_running_max_finite (ps : list Q) (M i : Z) :
  (1 <= i <= Z.of_nat (length ps))%Z ->
  finite (holm_running_max (map Fin ps) M i).
Proof.
  intro H. unfold holm_running_max. apply fold_max_finite.
  - apply holm_term_finite. lia.
  - apply Forall_forall. intros x Hx. apply in_map_iff in Hx.
    destruct Hx as [j [<- Hj]]. apply py_range_In in Hj.
    apply holm_term_finite. lia.
Qed.

Lemma holm_values_sorted (ps : list Q) (M : Z) :
  (0 <= M)%Z -> Z.of_nat (length ps) = (M + 1)%Z ->
  exists h : list fl,
    holm_values (map Fin ps) M = Ok h
    /\ length h = Z.to_nat (M + 1) /\ nondecreasing h.
Proof.
  intros HM HL. eexists. split; [| split].
  - apply holm_values_ok; [exact HM | now rewrite length_map].
  - rewrite length_map, py_range_length. lia.
  - apply sorted_nondecreasing.
    apply (sorted_over_range _ (M + 2) (Z.to_nat (M + 2 - 1)) 1 eq_refl).
    intros k Hk1 Hk2. rewrite holm_running_max_step by lia.
    apply py_min_mono; try reflexivity.
    + apply holm_running_max_finite. lia.
    + apply py_max_finite;
        [apply holm_running_max_finite | apply holm_term_finite]; lia.
    + apply py_max_ge;
        [apply holm_running_max_finite | apply holm_term_finite]; lia.
Qed.

(* ------------------------------------------------------------------ *)
(** ** The BHY array *)

Lemma py_index_In {A : Type} (l : list A) (i : Z) (x : A) :
  py_index l i = Ok x -> In x l.
Proof.
  unfold py_index.
  destruct ((_ <? 0) || _)%Z; [discriminate |].
  destruct (nth_error l _) as [y |] eqn:E; [| discriminate].
  intro H. injection H as <-. now apply nth_error_In in E.
Qed.

Lemma fold_add_finite (l : list fl) :
  forall x, finite x -> Forall finite l -> finite (fold_left fl_add l x).
Proof.
  induction l as [| a l IH]; intros x Hx Hl; [exact Hx |].
  inversion Hl as [| ? ? Ha Hl']; subst. simpl. apply IH; [| assumption].
  destruct (finite_Fin x Hx) as [p ->]. destruct (finite_Fin a Ha) as [q ->].
  reflexivity.
Qed.

Lemma c_constant_finite (M : Z) : finite (c_constant M).
Proof.
  unfold c_constant. apply fold_add_finite; [reflexivity |].
  apply Forall_forall. intros x Hx. apply in_map_iff in Hx.
  destruct Hx as [k [<- Hk]]. apply py_range_In in Hk.
  unfold of_int at 1. now rewrite fl_div_int by lia.
Qed.

Lemma bhy_coefficient_finite (M i : Z) :
  i <> 0%Z ->
  finite (fl_div (fl_mul (of_int (M + 1)) (c_constant M)) (of_int i)).
Proof.
  intro H. destruct (finite_Fin _ (c_constant_finite M)) as [c ->].
  unfold of_int at 1. simpl fl_mul. now rewrite fl_div_int.
Qed.

Lemma foldM_cons {A S : Type} (f : S -> A -> result S) (a : A) (l : list A)
  (s : S) : foldM f (a :: l) s = bind (f s a) (fun s' => foldM f l s').
Proof. reflexivity. Qed.

Lemma bhy_step_ok (all_p_values : list fl) (M i : Z) (l : list fl) (prev : fl) :
  all_p_values <> [] ->
  (1 <= i <= Z.of_nat (length all_p_values))%Z ->
  exists x, bhy_step all_p_values M (l, prev) i = Ok (x :: l, x).
Proof.
  intros Hne Hi. unfold bhy_step. destruct (i =? M + 1)%Z.
  - rewrite (py_index_last _ NaN Hne). eexists. reflexivity.
  - rewrite (py_index_ok _ _ NaN) by lia. eexists. reflexivity.
Qed.

Lemma bhy_fold_ok (all_p_values : list fl) (M : Z) (range : list Z) :
  all_p_values <> [] ->
  (forall i, In i range -> (1 <= i <= Z.of_nat (length all_p_values))%Z) ->
  forall st,
    exists st',
      foldM (bhy_step all_p_values M) range st = Ok st'
      /\ length (fst st') = (length range + length (fst st))%nat.
Proof.
  intros Hne. induction range as [| i range IH]; intros Hr [l prev].
  - eexists. split; reflexivity.
  - destruct (bhy_step_ok all_p_values M i l prev Hne) as [x Ex];
      [apply Hr; left; reflexivity |].
    destruct (IH (fun k Hk => Hr k (or_intror Hk)) (x :: l, x)) as [st' [E L]].
    exists st'. split.
    + rewrite foldM_cons, Ex. exact E.
    + rewrite L. simpl. lia.
Qed.

Lemma bhy_values_ok (all_p_values : list fl) (M : Z) :
  (0 <= M)%Z -> Z.of_nat (length all_p_values) = (M + 1)%Z ->
  exists b : list fl,
    bhy_values all_p_values M = Ok b /\ length b = Z.to_nat (M + 1).
Proof.
  intros HM HL. unfold bhy_values.
  destruct (bhy_fold_ok all_p_values M (py_range_down (M + 1) 0)) with
    (st := (@nil fl, NaN)) as [st' [E L]].
  - intro E. rewrite E in HL. simpl in HL. lia.
  - intros i Hi. apply py_range_down_In in Hi. lia.
  - rewrite E. simpl bind. eexists. split; [reflexivity |].
    rewrite L, py_range_down_length. simpl. lia.
Qed.

(** What the backward loop keeps true once the top rank is stored: the
    head of [p_bhy_values] is [p_previous], the entries are finite and in
    order. *)
Definition bhy_invariant (st : list fl * fl) : Prop :=
  (exists rest, fst st = snd st :: rest)
  /\ Forall finite (fst st) /\ Sorted fl_le (fst st).

Lemma bhy_step_invariant (ps : list Q) (M i : Z) (st st' : list fl * fl) :
  i <> (M + 1)%Z -> i <> 0%Z ->
  bhy_invariant st ->
  bhy_step (map Fin ps) M st i = Ok st' ->
  bhy_invariant st'.
Proof.
  intros Hi Hi0 [[rest Hhd] [Hfin Hsort]]. destruct st as [l prev].
  simpl in Hhd. subst l. unfold bhy_step.
  replace (i =? M + 1)%Z with false by (symmetry; now apply Z.eqb_neq).
  destruct (py_index (map Fin ps) (i - 1)) as [x | e] eqn:E; [| discriminate].
  simpl bind. intro H. injection H as <-.
  assert (Hx : finite x).
  { apply py_index_In in E. apply in_map_iff in E. now destruct E as [q [<- _]]. }
  assert (Hprev : finite prev) by now inversion Hfin.
  set (c := fl_div (fl_mul (of_int (M + 1)) (c_constant M)) (of_int i)).
  assert (Hc : finite (fl_mul c x)).
  { destruct (finite_Fin _ (bhy_coefficient_finite M i Hi0)) as [q Eq].
    fold c in Eq. rewrite Eq. now destruct (finite_Fin x Hx) as [r ->]. }
  split; [| split].
  - now eexists.
  - constructor; [now apply py_min_finite | exact Hfin].
  - constructor; [exact Hsort |]. constructor. now apply py_min_le_r.
Qed.

Lemma bhy_fold_invariant (ps : list Q) (M : Z) (range : list Z) :
  (forall i, In i range -> i <> (M + 1)%Z /\ i <> 0%Z) ->
  forall st st',
    bhy_invariant st ->
    foldM (bhy_step (map Fin ps) M) range st = Ok st' ->
    bhy_invariant st'.
Proof.
  induction range as [| i range IH]; intros Hr st st' Hinv.
  - simpl. intro H. now injection H as <-.
  - rewrite foldM_cons.
    destruct (bhy_step (map Fin ps) M st i) as [st1 | e] eqn:E;
      [| discriminate].
    simpl bind. apply IH.
    + intros k Hk. apply Hr. now right.
    + destruct (Hr i (or_introl eq_refl)) as [H1 H2].
      now apply (bhy_step_invariant ps M i st st1).
Qed.

Lemma bhy_values_sorted (ps : list Q) (M : Z) :
  (0 <= M)%Z -> Z.of_nat (length ps) = (M + 1)%Z ->
  exists b : list fl,
    bhy_values (map Fin ps) M = Ok b
    /\ length b = Z.to_nat (M + 1) /\ nondecreasing b.
Proof.
  intros HM HL.
  destruct (bhy_values_ok (map Fin ps) M HM) as [b [E L]];
    [now rewrite length_map |].
  exists b. split; [exact E | split; [exact L |]].
  apply sorted_nondecreasing.
  unfold bhy_values in E. rewrite py_range_down_cons in E by lia.
  rewrite foldM_cons in E. unfold bhy_step at 1 in E.
  rewrite Z.eqb_refl in E.
  assert (Hne : map Fin ps <> []).
  { intro N. apply (f_equal (@length fl)) in N.
    rewrite length_map in N. simpl in N. lia. }
  rewrite (py_index_last _ NaN Hne) in E. simpl bind in E.
  set (top := nth (length (map Fin ps) - 1) (map Fin ps) NaN) in E.
  destruct (foldM (bhy_step (map Fin ps) M) (py_range_down (M + 1 - 1) 0)
              ([top], top)) as [st' | e] eqn:F; [| discriminate].
  simpl in E. injection E as <-.
  assert (Htop : finite top).
  { unfold top. rewrite (nth_indep _ NaN (Fin 0)) by (rewrite length_map; lia).
    now rewrite (map_nth Fin ps 0%Q). }
  refine (proj2 (proj2 (bhy_fold_invariant ps M _ _ ([top], top) st' _ F))).
  - intros i Hi. apply py_range_down_In in Hi. lia.
  - split; [now exists [] | split]; repeat constructor. exact Htop.
Qed.

(** C6. For an array of [num_mult_test + 1] p-values (finite numbers; the
    proof does not even use that they are sorted), the intermediate array
    of the Holm method, [p_holm_values] (running maximum of
    [(M - j + 2) * p_(j)] capped at 1), and the intermediate array of the
    BHY method, [p_bhy_values] (backward cumulative minimum from the raw
    top-rank p-value), are both computed, have [num_mult_test + 1] entries,
    and are non-decreasing in rank order. *)
Theorem holm_and_bhy_arrays_nondecreasing :
  forall (p_values : list Q) (num_mult_test : Z),
    (0 <= num_mult_test)%Z ->
    Z.of_nat (length p_values) = (num_mult_test + 1)%Z ->
    exists p_holm_values p_bhy_values : list fl,
      holm_values (map Fin p_values) num_mult_test = Ok p_holm_values
      /\ bhy_values (map Fin p_values) num_mult_test = Ok p_bhy_values
      /\ length p_holm_values = Z.to_nat (num_mult_test + 1)
      /\ length p_bhy_values = Z.to_nat (num_mult_test + 1)
      /\ nondecreasing p_holm_values
      /\ nondecreasing p_bhy_values.
Proof.
  intros ps M HM HL.
  destruct (holm_values_sorted ps M HM HL) as [h [Eh [Lh Sh]]].
  destruct (bhy_values_sorted ps M HM HL) as [b [Eb [Lb Sb]]].
  exists h, b. tauto.
Qed.

Lemma holm_and_bhy_arrays_nondecreasing_witness :
  exists p_holm_values p_bhy_values : list fl,
    holm_values (map Fin [0.01; 0.02; 0.5; 0.9]) 3 = Ok p_holm_values
    /\ bhy_values (map Fin [0.01; 0.02; 0.5; 0.9]) 3 = Ok p_bhy_values
    /\ length p_holm_values = 4%nat
    /\ length p_bhy_values = 4%nat
    /\ nondecreasing p_holm_values
    /\ nondecreasing p_bhy_values.
Proof.
  apply (holm_and_bhy_arrays_nondecreasing [0.01; 0.02; 0.5; 0.9] 3);
    [lia | reflexivity].
Defined.

(* ------------------------------------------------------------------ *)
(** ** Looking the real strategy up among the sorted p-values *)

Lemma scalar_of_single (a : list fl) :
  length a = 1%nat -> exists v, a = [v] /\ scalar_of a = Ok v.
Proof.
  destruct a as [| v [| w a]]; try discriminate. intros _. now exists v.
Qed.

Lemma scalar_of_other (a : list fl) :
  length a <> 1%nat -> scalar_of a = Raise ValueError.
Proof.
  destruct a as [| v [| w a]]; try reflexivity. intro H. now contradiction H.
Qed.

Lemma np_setitem_ok (l : list fl) (i : Z) (v : fl) :
  (0 <= i < Z.of_nat (length l))%Z ->
  np_setitem l i v = Ok (set_nth l (Z.to_nat i) v).
Proof.
  intro H. unfold np_setitem.
  replace (i <? 0)%Z with false by (symmetry; apply Z.ltb_ge; lia).
  now replace ((i <? 0) || (Z.of_nat (length l) <=? i))%Z with false
    by (symmetry; apply orb_false_iff; split;
        [apply Z.ltb_ge | apply Z.leb_gt]; lia).
Qed.

(** C10. Let [all_p_values] hold [num_mult_test + 1] entries, of which
    [count_true mask] equal [p_val].  [_bhy_method] returns the array of
    all the matching adjusted values: one value when the match is unique,
    as many as there are matches otherwise.  [_holm_method] returns the
    first matching value as soon as there is a match.  Storing the BHY
    result in a slot of [p_bhy] goes through exactly when the match is
    unique: with two matches or more the pass of the orchestrator's loop
    raises [ValueError], after the Holm value has been stored. *)
Theorem bhy_lookup_needs_unique_match :
  forall (all_p_values : list fl) (num_mult_test : Z) (p_val : fl),
    (0 <= num_mult_test)%Z ->
    Z.of_nat (length all_p_values) = (num_mult_test + 1)%Z ->
    let mask := map (fun p => fl_eqb p p_val) all_p_values in
    exists p_holm_values p_bhy_values : list fl,
      holm_values all_p_values num_mult_test = Ok p_holm_values
      /\ bhy_values all_p_values num_mult_test = Ok p_bhy_values
      /\ _bhy_method all_p_values num_mult_test p_val
         = Ok (select p_bhy_values mask)
      /\ length (select p_bhy_values mask) = count_true mask
      /\ (count_true mask = 1%nat ->
          exists v, select p_bhy_values mask = [v]
                    /\ scalar_of (select p_bhy_values mask) = Ok v)
      /\ (count_true mask <> 1%nat ->
          scalar_of (select p_bhy_values mask) = Raise ValueError)
      /\ ((1 <= count_true mask)%nat ->
          exists v rest,
            select p_holm_values mask = v :: rest
            /\ _holm_method all_p_values num_mult_test p_val = Ok v)
      /\ ((2 <= count_true mask)%nat ->
          forall (norm_cdf : fl -> fl) (t_sample : ndarray2)
                 (simulation_number : Z) (p_holm p_bhy : list fl),
            repetition_p_values norm_cdf t_sample simulation_number
              num_mult_test p_val = Ok all_p_values ->
            (1 <= simulation_number <= Z.of_nat (length p_holm))%Z ->
            simulation_step norm_cdf t_sample num_mult_test p_val
              (p_holm, p_bhy) simulation_number = Raise ValueError).
Proof.
  intros all_p M p_val HM HL mask.
  destruct (bhy_values_ok all_p M HM HL) as [b [Eb Lb]].
  pose proof (holm_values_ok all_p M HM HL) as Eh.
  set (h := map _ (py_range 1 (M + 2))) in Eh.
  assert (Lh : length h = length mask).
  { unfold h, mask. rewrite !length_map, py_range_length. lia. }
  assert (Lbm : length b = length mask).
  { unfold mask. rewrite length_map. lia. }
  assert (Ebhy : _bhy_method all_p M p_val = Ok (select b mask)).
  { unfold _bhy_method. rewrite Eb. simpl bind. now apply np_mask_ok. }
  assert (Holm : (1 <= count_true mask)%nat ->
                 exists v rest, select h mask = v :: rest
                                /\ _holm_method all_p M p_val = Ok v).
  { intro H1. pose proof (select_length h mask Lh) as Ls.
    destruct (select h mask) as [| v rest] eqn:Es; [simpl in Ls; lia |].
    exists v, rest. split; [reflexivity |].
    unfold _holm_method. rewrite Eh. simpl bind.
    rewrite np_mask_ok by exact Lh. fold mask. simpl bind. now rewrite Es. }
  exists h, b.
  split; [exact Eh | split; [exact Eb | split; [exact Ebhy |]]].
  split; [now apply select_length |].
  split; [intro H1; apply scalar_of_single; now rewrite select_length |].
  split; [intro H1; apply scalar_of_other; now rewrite select_length |].
  split; [exact Holm |].
  intros H2 norm_cdf t_sample sim p_holm p_bhy Eall Hsim.
  destruct Holm as [v [rest [_ Ev]]]; [lia |].
  unfold simulation_step. rewrite Eall. simpl bind.
  rewrite Ev. simpl bind.
  rewrite np_setitem_ok by lia. simpl bind.
  rewrite Ebhy. simpl bind.
  rewrite scalar_of_other; [reflexivity |].
  rewrite select_length by exact Lbm. lia.
Qed.

Lemma bhy_lookup_needs_unique_match_witness :
  exists p_bhy_values : list fl,
    bhy_values (map Fin [0.01; 0.02; 0.02; 0.9]) 3 = Ok p_bhy_values
    /\ _bhy_method (map Fin [0.01; 0.02; 0.02; 0.9]) 3 (Fin 0.02)
       = Ok (select p_bhy_values [false; true; true; false])
    /\ length (select p_bhy_values [false; true; true; false]) = 2%nat
    /\ scalar_of (select p_bhy_values [false; true; true; false])
       = Raise ValueError.
Proof.
  destruct (bhy_lookup_needs_unique_match
              (map Fin [0.01; 0.02; 0.02; 0.9]) 3 (Fin 0.02))
    as [h [b [_ [Eb [Em [El [_ [Er _]]]]]]]]; [lia | reflexivity |].
  exists b. split; [exact Eb | split; [exact Em | split; [exact El |]]].
  apply Er. discriminate.
Defined.

(* ------------------------------------------------------------------ *)
(** ** The orchestrator *)

Section Orchestrator.

Variable sqrt : fl -> fl.
Variable rsqrt : fl -> fl.
Variable t_cdf : fl -> fl -> fl.
Variable t_ppf : fl -> fl -> fl.
Variable norm_cdf : fl -> fl.
Variables shock_mat prob_vec mean_vec : nat -> nat -> fl.

Let run := haircut_sharpe_ratios sqrt rsqrt t_cdf t_ppf norm_cdf
             shock_mat prob_vec mean_vec.

Lemma bind_Ok_inv {A B : Type} (m : result A) (k : A -> result B) (b : B) :
  bind m k = Ok b -> exists a, m = Ok a /\ k a = Ok b.
Proof. destruct m as [a | e]; [| discriminate]. intro H. now exists a. Qed.

Lemma set_nth_length (l : list fl) : forall i v,
  length (set_nth l i v) = length l.
Proof.
  induction l as [| x l IH]; intros [| i] v; simpl; auto.
Qed.

Lemma np_setitem_length (l l' : list fl) (i : Z) (v : fl) :
  np_setitem l i v = Ok l' -> length l' = length l.
Proof.
  unfold np_setitem. cbv zeta. destruct ((_ <? 0) || _)%Z; [discriminate |].
  intro H. injection H as <-. apply set_nth_length.
Qed.

Lemma simulation_step_lengths (t_sample : ndarray2) (M : Z) (p_val : fl)
  (st st' : list fl * list fl) (k : Z) :
  simulation_step norm_cdf t_sample M p_val st k = Ok st' ->
  length (fst st') = length (fst st) /\ length (snd st') = length (snd st).
Proof.
  destruct st as [p_holm p_bhy]. unfold simulation_step. intro H.
  apply bind_Ok_inv in H. destruct H as [all_p [_ H]].
  apply bind_Ok_inv in H. destruct H as [h [_ H]].
  apply bind_Ok_inv in H. destruct H as [p_holm' [E1 H]].
  apply bind_Ok_inv in H. destruct H as [b [_ H]].
  apply bind_Ok_inv in H. destruct H as [b' [_ H]].
  apply bind_Ok_inv in H. destruct H as [p_bhy' [E2 H]].
  injection H as <-. simpl.
  split; [exact (np_setitem_length _ _ _ _ E1)
         | exact (np_setitem_length _ _ _ _ E2)].
Qed.

Lemma simulation_loop_lengths (t_sample : ndarray2) (M : Z) (p_val : fl)
  (range : list Z) :
  forall st st',
    foldM (simulation_step norm_cdf t_sample M p_val) range st = Ok st' ->
    length (fst st') = length (fst st) /\ length (snd st') = length (snd st).
Proof.
  induction range as [| k range IH]; intros st st' H.
  - injection H as <-. split; reflexivity.
  - rewrite foldM_cons in H. apply bind_Ok_inv in H.
    destruct H as [st1 [E1 H]].
    destruct (simulation_step_lengths _ _ _ _ _ _ E1) as [A B].
    destruct (IH _ _ H) as [C D]. split; congruence.
Qed.

Lemma np_ones_length (n : Z) (l : list fl) :
  np_ones n = Ok l -> length l = Z.to_nat n.
Proof.
  unfold np_ones. destruct (n <? 0)%Z; [discriminate |].
  intro H. injection H as <-. apply repeat_length.
Qed.

(** What a returned table is made of. *)
Lemma run_Ok_inv (self : CampbellBacktesting) (sampling_frequency : string)
  (num_obs : Z) (sharpe_ratio : fl) (annualized autocorr_adjusted : bool)
  (rho_a : fl) (num_mult_test : Z) (rho : fl) (tbl : list (list fl)) :
  run self sampling_frequency num_obs sharpe_ratio annualized
    autocorr_adjusted rho_a num_mult_test rho = Ok tbl ->
  exists (sr_annual p_val : fl) (p_holm p_bhy : list fl),
    _annualized_sharpe_ratio sqrt rsqrt sharpe_ratio sampling_frequency
      rho_a annualized autocorr_adjusted = Ok sr_annual
    /\ raw_p_value sqrt t_cdf sr_annual
         (_monthly_observations num_obs sampling_frequency) = Ok p_val
    /\ length p_holm = Z.to_nat (simulations self)
    /\ length p_bhy = Z.to_nat (simulations self)
    /\ tbl = results_table sqrt t_ppf
               (p_val_adj num_mult_test p_val p_holm p_bhy)
               (_monthly_observations num_obs sampling_frequency) sr_annual.
Proof.
  unfold run, haircut_sharpe_ratios. intro H.
  apply bind_Ok_inv in H. destruct H as [sr_annual [E1 H]].
  apply bind_Ok_inv in H. destruct H as [trails [_ H]].
  apply bind_Ok_inv in H. destruct H as [t_sample [_ H]].
  apply bind_Ok_inv in H. destruct H as [p_val [E2 H]].
  apply bind_Ok_inv in H. destruct H as [ones1 [O1 H]].
  apply bind_Ok_inv in H. destruct H as [ones2 [O2 H]].
  apply bind_Ok_inv in H. destruct H as [st [F H]].
  injection H as <-.
  destruct (simulation_loop_lengths _ _ _ _ _ _ F) as [L1 L2].
  simpl in L1, L2.
  rewrite (np_ones_length _ _ O1) in L1. rewrite (np_ones_length _ _ O2) in L2.
  exists sr_annual, p_val, (fst st), (snd st). tauto.
Qed.

Lemma scalar_of_inv (a : list fl) (x : fl) : scalar_of a = Ok x -> a = [x].
Proof.
  destruct a as [| y [| z a]]; simpl; try discriminate. now intros [= ->].
Qed.

Lemma np_setitem_inv (l l' : list fl) (i : Z) (v : fl) :
  (0 <= i)%Z -> np_setitem l i v = Ok l' ->
  (i < Z.of_nat (length l))%Z /\ l' = set_nth l (Z.to_nat i) v.
Proof.
  intro Hi. unfold np_setitem. cbv zeta.
  assert (N : (i <? 0)%Z = false) by (apply Z.ltb_ge; lia).
  rewrite N. cbv iota. rewrite N.
  destruct (Z.of_nat (length l) <=? i)%Z eqn:E; cbn [orb];
    [intro H; discriminate H |].
  apply Z.leb_gt in E. intros [= <-]. split; [exact E | reflexivity].
Qed.

Lemma nth_set_nth_same (l : list fl) : forall (i : nat) (v d : fl),
  (i < length l)%nat -> nth i (set_nth l i v) d = v.
Proof.
  induction l as [| x l IH]; intros [| i] v d H; simpl in *; try lia.
  - reflexivity.
  - apply IH. lia.
Qed.

Lemma nth_set_nth_other (l : list fl) : forall (i j : nat) (v d : fl),
  i <> j -> nth j (set_nth l i v) d = nth j l d.
Proof.
  induction l as [| x l IH]; intros [| i] [| j] v d H; simpl;
    try reflexivity; try congruence.
  apply IH. congruence.
Qed.

(** What a pass of the loop that goes through has done. *)
Lemma simulation_step_inv (t_sample : ndarray2) (M : Z) (p_val : fl)
  (p_holm p_bhy : list fl) (k : Z) (st' : list fl * list fl) :
  (1 <= k)%Z ->
  simulation_step norm_cdf t_sample M p_val (p_holm, p_bhy) k = Ok st' ->
  exists (all_p : list fl) (h b : fl),
    repetition_p_values norm_cdf t_sample k M p_val = Ok all_p
    /\ _holm_method all_p M p_val = Ok h
    /\ _bhy_method all_p M p_val = Ok [b]
    /\ (Z.to_nat (k - 1) < length p_holm)%nat
    /\ (Z.to_nat (k - 1) < length p_bhy)%nat
    /\ st' = (set_nth p_holm (Z.to_nat (k - 1)) h,
              set_nth p_bhy (Z.to_nat (k - 1)) b).
Proof.
  intros Hk H. unfold simulation_step in H.
  apply bind_Ok_inv in H. destruct H as [all_p [E0 H]].
  apply bind_Ok_inv in H. destruct H as [h [Eh H]].
  apply bind_Ok_inv in H. destruct H as [p_holm' [E1 H]].
  apply bind_Ok_inv in H. destruct H as [b [Eb H]].
  apply bind_Ok_inv in H. destruct H as [b' [Es H]].
  apply bind_Ok_inv in H. destruct H as [p_bhy' [E2 H]].
  injection H as <-.
  apply scalar_of_inv in Es. subst b.
  apply np_setitem_inv in E1; [| lia]. destruct E1 as [L1 ->].
  apply np_setitem_inv in E2; [| lia]. destruct E2 as [L2 ->].
  exists all_p, h, b'. repeat split; try assumption; lia.
Qed.

(** The loop over a range of distinct repetition numbers: the slot
    [k - 1] of the two arrays holds the Holm value and the single BHY
    value of repetition [k]; the slots of no repetition are untouched. *)
Lemma simulation_loop_entries (t_sample : ndarray2) (M : Z) (p_val : fl)
  (range : list Z) :
  NoDup range -> Forall (fun k => (1 <= k)%Z) range ->
  forall st st',
    foldM (simulation_step norm_cdf t_sample M p_val) range st = Ok st' ->
    (forall k : Z,
       In k range ->
       exists all_p : list fl,
         repetition_p_values norm_cdf t_sample k M p_val = Ok all_p
         /\ _holm_method all_p M p_val
            = Ok (nth (Z.to_nat (k - 1)) (fst st') NaN)
         /\ _bhy_method all_p M p_val
            = Ok [nth (Z.to_nat (k - 1)) (snd st') NaN])
    /\ (forall j : nat,
          (forall k : Z, In k range -> Z.to_nat (k - 1) <> j) ->
          nth j (fst st') NaN = nth j (fst st) NaN
          /\ nth j (snd st') NaN = nth j (snd st) NaN).
Proof.
  induction range as [| k0 range IH]; intros ND Hpos st st' H.
  - injection H as <-. split; [intros k [] | intros j _; split; reflexivity].
  - rewrite foldM_cons in H. apply bind_Ok_inv in H.
    destruct H as [st1 [E1 H]].
    inversion ND as [| ? ? Hnotin ND']. subst.
    inversion Hpos as [| ? ? Hk0 Hpos']. subst.
    destruct (IH ND' Hpos' _ _ H) as [Entries Others].
    destruct st as [p_holm p_bhy].
    destruct (simulation_step_inv _ _ _ _ _ _ _ Hk0 E1)
      as [all_p [h [b [R [Eh [Eb [L1 [L2 ->]]]]]]]].
    simpl fst in *. simpl snd in *.
    assert (Far : forall k : Z, In k range ->
                    Z.to_nat (k - 1) <> Z.to_nat (k0 - 1)).
    { intros k Hin E. rewrite Forall_forall in Hpos'.
      pose proof (Hpos' k Hin). apply Hnotin.
      replace k0 with k by lia. exact Hin. }
    split.
    + intros k [<- | Hin]; [| now apply Entries].
      destruct (Others _ Far) as [O1 O2].
      exists all_p. split; [exact R |].
      rewrite O1, O2, !nth_set_nth_same by assumption. now split.
    + intros j Hj.
      destruct (Others j) as [O1 O2];
        [intros k Hin; apply Hj; now right |].
      rewrite O1, O2.
      assert (Z.to_nat (k0 - 1) <> j) by (apply Hj; now left).
      now rewrite !nth_set_nth_other by assumption.
Qed.

Lemma py_range_NoDup (lo hi : Z) : NoDup (py_range lo hi).
Proof.
  unfold py_range. apply Finite.Injective_map_NoDup; [| apply seq_NoDup].
  intros a b H. lia.
Qed.

(** A returned table with the loop that filled its two arrays. *)
Lemma run_Ok_loop (self : CampbellBacktesting) (sampling_frequency : string)
  (num_obs : Z) (sharpe_ratio : fl) (annualized autocorr_adjusted : bool)
  (rho_a : fl) (num_mult_test : Z) (rho : fl) (tbl : list (list fl)) :
  run self sampling_frequency num_obs sharpe_ratio annualized
    autocorr_adjusted rho_a num_mult_test rho = Ok tbl ->
  exists (sr_annual p_val : fl) (trails : Z) (t_sample : ndarray2)
         (p_holm p_bhy : list fl),
    _annualized_sharpe_ratio sqrt rsqrt sharpe_ratio sampling_frequency
      rho_a annualized autocorr_adjusted = Ok sr_annual
    /\ raw_p_value sqrt t_cdf sr_annual
         (_monthly_observations num_obs sampling_frequency) = Ok p_val
    /\ num_trails num_mult_test (_parameter_calculation rho) = Ok trails
    /\ _sample_random_multest sqrt shock_mat prob_vec mean_vec
         (item (_parameter_calculation rho) 0) trails
         (item (_parameter_calculation rho) 2)
         (item (_parameter_calculation rho) 3) (simulations self)
         (lit 0.15) 240 = Ok t_sample
    /\ (0 <= simulations self)%Z
    /\ foldM (simulation_step norm_cdf t_sample num_mult_test p_val)
         (py_range 1 (simulations self + 1))
         (repeat (of_int 1) (Z.to_nat (simulations self)),
          repeat (of_int 1) (Z.to_nat (simulations self)))
       = Ok (p_holm, p_bhy)
    /\ tbl = results_table sqrt t_ppf
               (p_val_adj num_mult_test p_val p_holm p_bhy)
               (_monthly_observations num_obs sampling_frequency) sr_annual.
Proof.
  unfold run, haircut_sharpe_ratios. intro H.
  apply bind_Ok_inv in H. destruct H as [sr_annual [E1 H]].
  apply bind_Ok_inv in H. destruct H as [trails [ET H]].
  apply bind_Ok_inv in H. destruct H as [t_sample [ES H]].
  apply bind_Ok_inv in H. destruct H as [p_val [E2 H]].
  apply bind_Ok_inv in H. destruct H as [ones1 [O1 H]].
  apply bind_Ok_inv in H. destruct H as [ones2 [O2 H]].
  apply bind_Ok_inv in H. destruct H as [[p_holm p_bhy] [F H]].
  injection H as <-.
  unfold np_ones in O1, O2.
  destruct (simulations self <? 0)%Z eqn:N; [discriminate |].
  apply Z.ltb_ge in N.
  injection O1 as <-. injection O2 as <-.
  exists sr_annual, p_val, trails, t_sample, p_holm, p_bhy.
  repeat (split; [assumption |]). reflexivity.
Qed.

End Orchestrator.

(** C9. A table returned by [haircut_sharpe_ratios] has three rows of four
    entries.  The rows are the adjusted p-values, the adjusted Sharpe
    ratios and the haircut percentages; the columns are Bonferroni, Holm,
    BHY and Average.  The Holm entry is the median of the array [p_holm]
    and the BHY entry the median of the array [p_bhy] that the loop over
    the repetitions fills from two arrays of ones: the slot [k - 1] of
    [p_holm] holds what [_holm_method] returns on the p-values of
    repetition [k], the slot [k - 1] of [p_bhy] the single value that
    [_bhy_method] returns on them.  The adjusted p-value of Average is the
    arithmetic mean of the other three. *)
Theorem haircut_table_layout :
  forall (sqrt rsqrt : fl -> fl) (t_cdf t_ppf : fl -> fl -> fl)
         (norm_cdf : fl -> fl) (shock_mat prob_vec mean_vec : nat -> nat -> fl)
         (self : CampbellBacktesting) (sampling_frequency : string)
         (num_obs : Z) (sharpe_ratio : fl)
         (annualized autocorr_adjusted : bool) (rho_a : fl)
         (num_mult_test : Z) (rho : fl) (tbl : list (list fl)),
    haircut_sharpe_ratios sqrt rsqrt t_cdf t_ppf norm_cdf
      shock_mat prob_vec mean_vec self sampling_frequency num_obs
      sharpe_ratio annualized autocorr_adjusted rho_a num_mult_test rho
    = Ok tbl ->
    exists (sr_annual p_val : fl) (trails : Z) (t_sample : ndarray2)
           (p_holm p_bhy : list fl),
      let monthly_obs := _monthly_observations num_obs sampling_frequency in
      let parameters := _parameter_calculation rho in
      let ones := repeat (of_int 1) (Z.to_nat (simulations self)) in
      let bonf := bonferroni num_mult_test p_val in
      let holm := np_median p_holm in
      let bhy := np_median p_bhy in
      let average := fl_div (fl_add (fl_add bonf holm) bhy) (of_int 3) in
      let adjusted p := _sharpe_ratio_haircut sqrt t_ppf p monthly_obs
                          sr_annual in
      _annualized_sharpe_ratio sqrt rsqrt sharpe_ratio sampling_frequency
        rho_a annualized autocorr_adjusted = Ok sr_annual
      /\ raw_p_value sqrt t_cdf sr_annual monthly_obs = Ok p_val
      /\ num_trails num_mult_test parameters = Ok trails
      /\ _sample_random_multest sqrt shock_mat prob_vec mean_vec
           (item parameters 0) trails (item parameters 2)
           (item parameters 3) (simulations self) (lit 0.15) 240
         = Ok t_sample
      /\ foldM (simulation_step norm_cdf t_sample num_mult_test p_val)
           (py_range 1 (simulations self + 1)) (ones, ones)
         = Ok (p_holm, p_bhy)
      /\ length p_holm = Z.to_nat (simulations self)
      /\ length p_bhy = Z.to_nat (simulations self)
      /\ (forall simulation_number : Z,
            (1 <= simulation_number <= simulations self)%Z ->
            exists all_p_values : list fl,
              repetition_p_values norm_cdf t_sample simulation_number
                num_mult_test p_val = Ok all_p_values
              /\ _holm_method all_p_values num_mult_test p_val
                 = Ok (nth (Z.to_nat (simulation_number - 1)) p_holm NaN)
              /\ _bhy_method all_p_values num_mult_test p_val
                 = Ok [nth (Z.to_nat (simulation_number - 1)) p_bhy NaN])
      /\ tbl =
         [ [bonf; holm; bhy; average];
           [fst (adjusted bonf); fst (adjusted holm);
            fst (adjusted bhy); fst (adjusted average)];
           [snd (adjusted bonf); snd (adjusted holm);
            snd (adjusted bhy); snd (adjusted average)] ].
Proof.
  intros until tbl. intro H.
  destruct (run_Ok_loop _ _ _ _ _ _ _ _ _ _ _ _ _ _ _ _ _ _ H)
    as [sr_annual [p_val [trails [t_sample [p_holm [p_bhy
        [E1 [E2 [ET [ES [N [F ->]]]]]]]]]]]].
  exists sr_annual, p_val, trails, t_sample, p_holm, p_bhy. cbv zeta.
  destruct (simulation_loop_lengths _ _ _ _ _ _ _ F) as [L1 L2].
  simpl in L1, L2. rewrite repeat_length in L1, L2.
  assert (Pos : Forall (fun k => (1 <= k)%Z)
                  (py_range 1 (simulations self + 1))).
  { apply Forall_forall. intros k Hk. apply py_range_In in Hk. lia. }
  destruct (simulation_loop_entries _ _ _ _ _ (py_range_NoDup _ _) Pos _ _ F)
    as [Entries _].
  repeat (split; [assumption |]).
  split; [| reflexivity].
  intros k Hk. apply Entries. apply py_range_In. lia.
Qed.

(** A run on the stand-ins: daily returns, 1250 observations, a Sharpe
    ratio of 0.1 not yet annualised, three tests. *)
Definition toy_table : list (list fl) :=
  Eval vm_compute in
    match toy_haircut_sharpe_ratios short_backtest "D" 1250 (lit 0.1)
            false true (of_int 0) 3 (lit 0.4) with
    | Ok tbl => tbl
    | Raise _ => []
    end.

Lemma toy_run :
  toy_haircut_sharpe_ratios short_backtest "D" 1250 (lit 0.1) false true
    (of_int 0) 3 (lit 0.4) = Ok toy_table.
Proof. vm_compute. reflexivity. Qed.

Lemma haircut_table_layout_witness :
  exists tbl : list (list fl),
    toy_haircut_sharpe_ratios short_backtest "D" 1250 (lit 0.1) false true
      (of_int 0) 3 (lit 0.4) = Ok tbl
    /\ length tbl = 3%nat
    /\ Forall (fun r => length r = 4%nat) tbl
    /\ exists bonf holm bhy : fl,
         nth 0 tbl []
         = [bonf; holm; bhy;
            fl_div (fl_add (fl_add bonf holm) bhy) (of_int 3)].
Proof.
  exists toy_table. split; [exact toy_run |].
  destruct (haircut_table_layout Toy.sqrt Toy.rsqrt Toy.t_cdf Toy.t_ppf
              Toy.norm_cdf Toy.shock_mat Toy.prob_vec Toy.mean_vec
              short_backtest "D" 1250 (lit 0.1) false true (of_int 0) 3
              (lit 0.4) toy_table toy_run)
    as [sr_annual [p_val [trails [t_sample [p_holm [p_bhy
        [_ [_ [_ [_ [_ [_ [_ [_ E]]]]]]]]]]]]]].
  rewrite E. split; [reflexivity | split].
  - repeat constructor.
  - do 3 eexists. reflexivity.
Defined.

(* ------------------------------------------------------------------ *)
(** ** Input validation *)

(** A computation that does not end in [InvalidInputError]. *)
Definition never_invalid {A : Type} (m : result A) : Prop :=
  m <> Raise InvalidInputError.

Lemma Ok_never_invalid {A : Type} (a : A) : never_invalid (Ok a).
Proof. discriminate. Qed.

Lemma bind_never_invalid {A B : Type} (m : result A) (k : A -> result B) :
  never_invalid m -> (forall a, never_invalid (k a)) ->
  never_invalid (bind m k).
Proof.
  intros Hm Hk. destruct m as [a | e]; simpl; [apply Hk |].
  intro H. apply Hm. injection H as ->. reflexivity.
Qed.

Lemma mapM_never_invalid {A B : Type} (f : A -> result B) (l : list A) :
  (forall a, never_invalid (f a)) -> never_invalid (mapM f l).
Proof.
  intro H. induction l as [| a l IH]; simpl; [discriminate |].
  apply bind_never_invalid; [apply H |]. intro b.
  apply bind_never_invalid; [exact IH |]. intro bs. discriminate.
Qed.

Lemma foldM_never_invalid {A S : Type} (f : S -> A -> result S)
  (l : list A) :
  (forall s a, never_invalid (f s a)) ->
  forall s, never_invalid (foldM f l s).
Proof.
  intro H. induction l as [| a l IH]; intro s; simpl; [discriminate |].
  apply bind_never_invalid; [apply H | exact IH].
Qed.

Ltac by_cases :=
  unfold never_invalid;
  repeat match goal with
         | |- context [if ?b then _ else _] => destruct b
         | |- context [match ?x with _ => _ end] => destruct x
         end;
  discriminate.

Lemma py_div_never_invalid (x y : fl) : never_invalid (py_div x y).
Proof. unfold py_div. by_cases. Qed.

Lemma py_pow_never_invalid (x : fl) (n : positive) :
  never_invalid (py_pow x n).
Proof. unfold py_pow. by_cases. Qed.

Lemma py_index_never_invalid {A : Type} (l : list A) (i : Z) :
  never_invalid (py_index l i).
Proof. unfold py_index. by_cases. Qed.

Lemma py_int_never_invalid (x : fl) : never_invalid (py_int x).
Proof. unfold py_int. by_cases. Qed.

Lemma py_max_list_never_invalid (l : list fl) : never_invalid (py_max_list l).
Proof. unfold py_max_list. by_cases. Qed.

Lemma np_mask_never_invalid {A : Type} (v : list A) (m : list bool) :
  never_invalid (np_mask v m).
Proof. unfold np_mask. by_cases. Qed.

Lemma np_setitem_never_invalid (l : list fl) (i : Z) (v : fl) :
  never_invalid (np_setitem l i v).
Proof. unfold np_setitem. by_cases. Qed.

Lemma scalar_of_never_invalid (a : list fl) : never_invalid (scalar_of a).
Proof. unfold scalar_of. by_cases. Qed.

Lemma np_ones_never_invalid (n : Z) : never_invalid (np_ones n).
Proof. unfold np_ones. by_cases. Qed.

Lemma row_slice_never_invalid (a : ndarray2) (r lo hi : Z) :
  never_invalid (row_slice a r lo hi).
Proof. unfold row_slice. by_cases. Qed.

Create HintDb never_invalid.
#[local] Hint Resolve Ok_never_invalid py_div_never_invalid
  py_pow_never_invalid py_index_never_invalid py_int_never_invalid py_max_list_never_invalid
  np_mask_never_invalid np_setitem_never_invalid scalar_of_never_invalid
  np_ones_never_invalid row_slice_never_invalid : never_invalid.

Ltac step_never_invalid :=
  repeat first
    [ solve [auto with never_invalid]
    | apply bind_never_invalid; [| intro ]
    | apply mapM_never_invalid; intro
    | apply foldM_never_invalid; intros ].

Lemma holm_method_never_invalid (all_p : list fl) (M : Z) (p_val : fl) :
  never_invalid (_holm_method all_p M p_val).
Proof.
  unfold _holm_method, holm_values, holm_adjusted. step_never_invalid.
Qed.

Lemma bhy_method_never_invalid (all_p : list fl) (M : Z) (p_val : fl) :
  never_invalid (_bhy_method all_p M p_val).
Proof.
  unfold _bhy_method, bhy_values. step_never_invalid.
  match goal with s : (list fl * fl)%type |- _ => destruct s end.
  unfold bhy_step. step_never_invalid.
  destruct (_ =? _)%Z; step_never_invalid.
Qed.

#[local] Hint Resolve holm_method_never_invalid bhy_method_never_invalid
  : never_invalid.

Section Validation.

Variable sqrt : fl -> fl.
Variable rsqrt : fl -> fl.
Variable t_cdf : fl -> fl -> fl.
Variable t_ppf : fl -> fl -> fl.
Variable norm_cdf : fl -> fl.
Variables shock_mat prob_vec mean_vec : nat -> nat -> fl.

Lemma annualized_never_invalid (sr : fl) (sf : string) (rho : fl)
  (annualized autocorr_adjusted : bool) :
  never_invalid
    (_annualized_sharpe_ratio sqrt rsqrt sr sf rho annualized
       autocorr_adjusted).
Proof.
  unfold _annualized_sharpe_ratio. step_never_invalid.
  destruct (negb autocorr_adjusted); step_never_invalid.
  unfold py_pow_neg_half. by_cases.
Qed.

Lemma sample_never_invalid (rho : fl) (n_trails : Z) (p0 lambd : fl)
  (n_simulations : Z) (annual_vol : fl) (n_obs : Z) :
  never_invalid
    (_sample_random_multest sqrt shock_mat prob_vec mean_vec rho n_trails
       p0 lambd n_simulations annual_vol n_obs).
Proof.
  unfold _sample_random_multest. step_never_invalid; by_cases.
Qed.

Lemma simulation_step_never_invalid (t_sample : ndarray2) (M : Z)
  (p_val : fl) (st : list fl * list fl) (k : Z) :
  never_invalid (simulation_step norm_cdf t_sample M p_val st k).
Proof.
  destruct st as [p_holm p_bhy].
  unfold simulation_step, repetition_p_values, t_values_simulation.
  step_never_invalid.
Qed.

(** No path of the orchestrator ends in [InvalidInputError]. *)
Lemma run_never_invalid (self : CampbellBacktesting) (sf : string)
  (num_obs : Z) (sr : fl) (annualized autocorr_adjusted : bool) (rho_a : fl)
  (M : Z) (rho : fl) :
  never_invalid
    (haircut_sharpe_ratios sqrt rsqrt t_cdf t_ppf norm_cdf shock_mat
       prob_vec mean_vec self sf num_obs sr annualized autocorr_adjusted
       rho_a M rho).
Proof.
  unfold haircut_sharpe_ratios, num_trails, raw_p_value.
  pose proof annualized_never_invalid. pose proof sample_never_invalid.
  pose proof simulation_step_never_invalid.
  step_never_invalid.
Qed.

End Validation.

(** A float that is zero or NaN. *)
Definition zero_or_nan (x : fl) : Prop :=
  match x with
  | Fin q => (q == 0)%Q
  | Inf _ => False
  | NaN => True
  end.

Lemma eqb_zero_is_zero (x : fl) : fl_eqb x (of_int 0) = true -> zero_or_nan x.
Proof.
  destruct x as [q | s |]; simpl; try discriminate. apply Qeqb_true.
Qed.

Lemma mul_zero_or_nan (x y : fl) : zero_or_nan x -> zero_or_nan (fl_mul x y).
Proof.
  destruct x as [a | s |]; simpl; [| contradiction | trivial].
  intro H. destruct y as [b | t |]; simpl; [| | trivial].
  - rewrite H. apply Qmult_0_l.
  - now replace (Qzero a) with true by (symmetry; now apply Qzero_true).
Qed.

(** [(s - x) / s * 100] is not a finite number when [s] is zero or NaN. *)
Lemma quotient_by_zero_not_finite (s x : fl) :
  zero_or_nan s ->
  is_finite (fl_mul (fl_div (fl_sub s x) s) (of_int 100)) = false.
Proof.
  destruct s as [a | t |]; simpl; [| contradiction | reflexivity].
  intro H. apply Qzero_true in H.
  destruct x as [b | u |]; simpl; rewrite ?H; try reflexivity.
  destruct (Qzero (a + - b)); reflexivity.
Qed.

Lemma py_div_by_zero (x y : fl) :
  zero_or_nan y -> y <> NaN -> py_div x y = Raise ZeroDivisionError.
Proof.
  destruct y as [b | t |]; simpl; [| contradiction | congruence].
  intros H _. apply Qzero_true in H. now rewrite H.
Qed.

(** C1, as the code has it. [haircut_sharpe_ratios] checks none of its
    arguments: whatever the inputs, it never raises [InvalidInputError].
    With an autocorrelation of 1 and [autocorr_adjusted = False] the
    frequency normaliser divides by [1 - rho] and the call ends in
    [ZeroDivisionError] before the panel is drawn.  With a Sharpe ratio of
    0 nothing stops the run, and every table it returns has a haircut row
    of four non-finite entries (the quotient by [sr_annual = 0]). *)
Theorem haircut_sharpe_ratios_checks_no_input :
  forall (sqrt rsqrt : fl -> fl) (t_cdf t_ppf : fl -> fl -> fl)
         (norm_cdf : fl -> fl) (shock_mat prob_vec mean_vec : nat -> nat -> fl)
         (self : CampbellBacktesting) (sampling_frequency : string)
         (num_obs : Z) (sharpe_ratio : fl)
         (annualized autocorr_adjusted : bool) (rho_a : fl)
         (num_mult_test : Z) (rho : fl),
    let outcome :=
      haircut_sharpe_ratios sqrt rsqrt t_cdf t_ppf norm_cdf
        shock_mat prob_vec mean_vec self sampling_frequency num_obs
        sharpe_ratio annualized autocorr_adjusted rho_a num_mult_test rho in
    outcome <> Raise InvalidInputError
    /\ (fl_eqb rho_a (of_int 1) = true -> autocorr_adjusted = false ->
        outcome = Raise ZeroDivisionError)
    /\ (fl_eqb sharpe_ratio (of_int 0) = true ->
        forall tbl : list (list fl),
          outcome = Ok tbl ->
          exists (p_values sharpe_ratios : list fl) (h0 h1 h2 h3 : fl),
            tbl = [p_values; sharpe_ratios; [h0; h1; h2; h3]]
            /\ is_finite h0 = false /\ is_finite h1 = false
            /\ is_finite h2 = false /\ is_finite h3 = false).
Proof.
  intros. split; [apply run_never_invalid | split].
  - intros Hrho Hadj. unfold outcome, haircut_sharpe_ratios.
    unfold _annualized_sharpe_ratio at 1. rewrite Hadj. simpl negb. cbv iota.
    rewrite py_div_by_zero; [reflexivity | |].
    + destruct rho_a as [r | s |]; simpl in *; try discriminate.
      apply Qeqb_true in Hrho. rewrite Hrho. reflexivity.
    + destruct rho_a as [r | s |]; simpl in *; discriminate.
  - intros Hzero tbl H. unfold outcome in H.
    destruct (run_Ok_inv _ _ _ _ _ _ _ _ _ _ _ _ _ _ _ _ _ _ H)
      as [sr_annual [p_val [p_holm [p_bhy [E1 [_ [_ [_ ->]]]]]]]].
    assert (Z0 : zero_or_nan sr_annual).
    { unfold _annualized_sharpe_ratio in E1.
      apply bind_Ok_inv in E1. destruct E1 as [m [_ E1]].
      injection E1 as <-.
      apply mul_zero_or_nan, mul_zero_or_nan, eqb_zero_is_zero, Hzero. }
    unfold results_table, _sharpe_ratio_haircut. simpl snd.
    do 6 eexists. split; [reflexivity |].
    repeat split; now apply quotient_by_zero_not_finite.
Qed.

(** The run on the stand-ins with a Sharpe ratio of 0. *)
Definition toy_zero_table : list (list fl) :=
  Eval vm_compute in
    match toy_haircut_sharpe_ratios short_backtest "D" 1250 (of_int 0)
            false true (of_int 0) 3 (lit 0.4) with
    | Ok tbl => tbl
    | Raise _ => []
    end.

Lemma toy_zero_run :
  toy_haircut_sharpe_ratios short_backtest "D" 1250 (of_int 0) false true
    (of_int 0) 3 (lit 0.4) = Ok toy_zero_table.
Proof. vm_compute. reflexivity. Qed.

Lemma haircut_sharpe_ratios_checks_no_input_witness :
  fl_eqb (of_int 0) (of_int 0) = true
  /\ toy_haircut_sharpe_ratios short_backtest "D" 1250 (of_int 0) false true
       (of_int 0) 3 (lit 0.4) = Ok toy_zero_table
  /\ exists (p_values sharpe_ratios : list fl) (h0 h1 h2 h3 : fl),
       toy_zero_table = [p_values; sharpe_ratios; [h0; h1; h2; h3]]
       /\ is_finite h0 = false /\ is_finite h1 = false
       /\ is_finite h2 = false /\ is_finite h3 = false.
Proof.
  split; [reflexivity | split; [exact toy_zero_run |]].
  exact (proj2 (proj2
           (haircut_sharpe_ratios_checks_no_input Toy.sqrt Toy.rsqrt
              Toy.t_cdf Toy.t_ppf Toy.norm_cdf Toy.shock_mat Toy.prob_vec
              Toy.mean_vec short_backtest "D" 1250 (of_int 0) false true
              (of_int 0) 3 (lit 0.4)))
           eq_refl toy_zero_table toy_zero_run).
Defined.

(** C1 as stated fails: with [sharpe_ratio = 0] the call of a freshly
    constructed object does not raise [InvalidInputError], and the run on
    the stand-ins returns a table whose haircut row is NaN throughout. *)
Lemma zero_sharpe_ratio_is_not_rejected :
  toy_haircut_sharpe_ratios __init__ "D" 1250 (of_int 0) false true
    (of_int 0) 3 (lit 0.4) <> Raise InvalidInputError
  /\ exists tbl : list (list fl),
       toy_haircut_sharpe_ratios short_backtest "D" 1250 (of_int 0) false
         true (of_int 0) 3 (lit 0.4) = Ok tbl
       /\ nth 2 tbl [] = [NaN; NaN; NaN; NaN].
Proof.
  split; [apply run_never_invalid |].
  exists toy_zero_table. split; [exact toy_zero_run | reflexivity].
Qed.

(* ================================================================== *)
(** * Further properties of the code *)

(** ** The parameter table, piece by piece *)

Lemma interpolate_item (q hi lo a b : Q) (i j k : nat) :
  item (level i) k = Fin a -> item (level j) k = Fin b ->
  length (level i) = 4%nat -> length (level j) = 4%nat ->
  item (interpolate (Fin q) (Fin hi) (Fin lo) i j) k
  = Fin ((hi + - q) / 0.2 * a + (q + - lo) / 0.2 * b).
Proof.
  intros Ea Eb La Lb. unfold interpolate, item in *.
  destruct (level i) as [| x0 [| x1 [| x2 [| x3 [| ? ?]]]]]; try discriminate.
  destruct (level j) as [| y0 [| y1 [| y2 [| y3 [| ? ?]]]]]; try discriminate.
  destruct k as [| [| [| [| [| k]]]]]; simpl in *; try discriminate;
    subst; reflexivity.
Qed.

(** The branch [_parameter_calculation] takes on a finite [rho]. *)
Lemma parameter_calculation_cases (q : Q) :
  ((q < 0)%Q /\ _parameter_calculation (Fin q) = level 1)
  \/ ((0 <= q)%Q /\ (q < 0.2)%Q
      /\ _parameter_calculation (Fin q)
         = interpolate (Fin q) (Fin 0.2) (Fin 0) 0 1)
  \/ ((0.2 <= q)%Q /\ (q < 0.4)%Q
      /\ _parameter_calculation (Fin q)
         = interpolate (Fin q) (Fin 0.4) (Fin 0.2) 1 2)
  \/ ((0.4 <= q)%Q /\ (q < 0.6)%Q
      /\ _parameter_calculation (Fin q)
         = interpolate (Fin q) (Fin 0.6) (Fin 0.4) 2 3)
  \/ ((0.6 <= q)%Q /\ (q < 1)%Q
      /\ _parameter_calculation (Fin q)
         = interpolate (Fin q) (Fin 0.8) (Fin 0.6) 3 4)
  \/ ((1 <= q)%Q /\ _parameter_calculation (Fin q) = level 1).
Proof.
  unfold _parameter_calculation, lit, of_int.
  change (inject_Z 0) with 0%Q.
  destruct (fl_ltb (Fin q) (Fin 0)) eqn:E0.
  { apply fl_ltb_Fin in E0. left. now split. }
  apply fl_ltb_Fin_false in E0. right.
  destruct (fl_ltb (Fin q) (Fin 0.2)) eqn:E1.
  { apply fl_ltb_Fin in E1. left. repeat split; assumption. }
  apply fl_ltb_Fin_false in E1. right.
  destruct (fl_ltb (Fin q) (Fin 0.4)) eqn:E2.
  { apply fl_ltb_Fin in E2. left. repeat split; assumption. }
  apply fl_ltb_Fin_false in E2. right.
  destruct (fl_ltb (Fin q) (Fin 0.6)) eqn:E3.
  { apply fl_ltb_Fin in E3. left. repeat split; assumption. }
  apply fl_ltb_Fin_false in E3. right.
  destruct (fl_ltb (Fin q) (Fin 0.8)) eqn:E4.
  { apply fl_ltb_Fin in E4. left. repeat split; try assumption; lra. }
  apply fl_ltb_Fin_false in E4.
  destruct (fl_ltb (Fin q) (Fin 1.0)) eqn:E5.
  { apply fl_ltb_Fin in E5. left. repeat split; try assumption; lra. }
  apply fl_ltb_Fin_false in E5. right. split; [lra | reflexivity].
Qed.

(** The entry [k] of the row returned for [rho = q] inside [0, 1), as a
    rational expression of [q]. *)
Ltac interpolated k :=
  match goal with
  | E : _parameter_calculation (Fin ?q) = interpolate _ (Fin ?hi) (Fin ?lo) ?i ?j
    |- _ =>
      rewrite E;
      erewrite (interpolate_item q hi lo _ _ i j k)
        by (try reflexivity)
  end.

(** The same chain of tests over binary64. *)
Lemma b64_parameter_calculation_out_of_range (rho : float) :
  PrimFloat.ltb rho 0%float = true \/ PrimFloat.ltb rho 1.0%float = false ->
  B64._parameter_calculation rho = B64.level 1.
Proof.
  unfold B64._parameter_calculation. rewrite !ltb_spec.
  set (c0 := Prim2SF 0%float). set (c2 := Prim2SF 0.2%float).
  set (c4 := Prim2SF 0.4%float). set (c6 := Prim2SF 0.6%float).
  set (c8 := Prim2SF 0.8%float). set (c1 := Prim2SF 1.0%float).
  vm_compute in c0, c2, c4, c6, c8, c1. subst c0 c2 c4 c6 c8 c1.
  destruct (Prim2SF rho) as [s | s | | s m e]; try (destruct s);
    cbn [SFltb SFcompare]; intros [H | H]; try discriminate H;
    try reflexivity;
    repeat match goal with
           | H : context [(?a ?= ?b)%Z] |- _ =>
               destruct (Z.compare_spec a b); try discriminate H
           | |- context [(?a ?= ?b)%Z] =>
               destruct (Z.compare_spec a b); try lia
           end;
    try reflexivity; try lia.
  rewrite H. reflexivity.
Qed.

(** X1. A correlation outside [0, 1) is not rejected: for a negative
    [rho], for [rho >= 1], for an infinity and for NaN (every comparison
    with it is False, so the chain of tests runs to its [else])
    [_parameter_calculation] returns the table row of the level 0.2, and
    the first parameter handed to the simulator is 0.2, not [rho].  Only
    comparisons are involved; the second part states the same of the
    binary64 reading, for every float. *)
Theorem parameter_calculation_out_of_range :
  forall (rho : fl) (rho64 : float),
    (fl_ltb rho (of_int 0) = true \/ fl_ltb rho (lit 1.0) = false ->
     _parameter_calculation rho = level 1
     /\ item (_parameter_calculation rho) 0 = lit 0.2
     /\ item (_parameter_calculation rho) 1 = of_int 1377)
    /\ (PrimFloat.ltb rho64 0%float = true
        \/ PrimFloat.ltb rho64 1.0%float = false ->
        B64._parameter_calculation rho64 = B64.level 1
        /\ nth 0 (B64._parameter_calculation rho64) nan = 0.2%float
        /\ nth 1 (B64._parameter_calculation rho64) nan = 1377%float).
Proof.
  intros rho rho64. split; intro H.
  - assert (E : _parameter_calculation rho = level 1).
    { destruct rho as [q | [] |]; try reflexivity.
      destruct (parameter_calculation_cases q)
        as [[_ E] | [[H0 [H1 _]] | [[H0 [H1 _]] | [[H0 [H1 _]]
            | [[H0 [H1 _]] | [_ E]]]]]]; try exact E;
        exfalso; (destruct H as [H | H];
                  [apply fl_ltb_Fin in H; unfold inject_Z in H; lra
                  | apply fl_ltb_Fin_false in H; lra]). }
    rewrite E. repeat split; reflexivity.
  - rewrite (b64_parameter_calculation_out_of_range rho64 H).
    repeat split; reflexivity.
Qed.

Lemma parameter_calculation_out_of_range_witness :
  _parameter_calculation NaN = level 1
  /\ _parameter_calculation (lit 1.5) = level 1
  /\ item (_parameter_calculation (lit (-0.3))) 0 = lit 0.2
  /\ B64._parameter_calculation nan = B64.level 1
  /\ B64._parameter_calculation 1.5%float = B64.level 1
  /\ nth 0 (B64._parameter_calculation (-0.3)%float) nan = 0.2%float.
Proof.
  split; [| split; [| split; [| split; [| split]]]].
  - apply (proj1 (parameter_calculation_out_of_range NaN nan)).
    right. reflexivity.
  - apply (proj1 (parameter_calculation_out_of_range (lit 1.5) nan)).
    right. reflexivity.
  - apply (proj1 (parameter_calculation_out_of_range (lit (-0.3)) nan)).
    left. reflexivity.
  - apply (proj2 (parameter_calculation_out_of_range NaN nan)).
    right. reflexivity.
  - apply (proj2 (parameter_calculation_out_of_range NaN 1.5%float)).
    right. reflexivity.
  - apply (proj2 (parameter_calculation_out_of_range NaN (-0.3)%float)).
    left. reflexivity.
Defined.

Lemma level_1_items :
  exists r n p l : Q,
    level 1 = [Fin r; Fin n; Fin p; Fin l]
    /\ (1377 <= n)%Q /\ (n <= 1377)%Q
    /\ (0.44 <= p)%Q /\ (p <= 0.45)%Q
    /\ (0.0055 <= l)%Q /\ (l <= 0.0056)%Q.
Proof.
  do 4 eexists. split; [reflexivity |]. unfold inject_Z. repeat split; lra.
Qed.

Lemma interpolate_row (q hi lo : Q) (i j : nat) :
  length (level i) = 4%nat -> length (level j) = 4%nat ->
  interpolate (Fin q) (Fin hi) (Fin lo) i j
  = [item (interpolate (Fin q) (Fin hi) (Fin lo) i j) 0;
     item (interpolate (Fin q) (Fin hi) (Fin lo) i j) 1;
     item (interpolate (Fin q) (Fin hi) (Fin lo) i j) 2;
     item (interpolate (Fin q) (Fin hi) (Fin lo) i j) 3].
Proof.
  intros La Lb. unfold interpolate, item.
  destruct (level i) as [| x0 [| x1 [| x2 [| x3 [| ? ?]]]]]; try discriminate.
  destruct (level j) as [| y0 [| y1 [| y2 [| y3 [| ? ?]]]]]; try discriminate.
  reflexivity.
Qed.

Ltac row_of_interpolation q hi lo i j :=
  rewrite (interpolate_row q hi lo i j) by reflexivity;
  erewrite (interpolate_item q hi lo _ _ i j 0) by (try reflexivity);
  erewrite (interpolate_item q hi lo _ _ i j 1) by (try reflexivity);
  erewrite (interpolate_item q hi lo _ _ i j 2) by (try reflexivity);
  erewrite (interpolate_item q hi lo _ _ i j 3) by (try reflexivity);
  do 4 eexists; split; [reflexivity |];
  simpl; unfold inject_Z; rewrite !Qdiv_fifth.

(** X2. Whatever [rho] is (any number, an infinity, NaN),
    [_parameter_calculation] returns four finite numbers in fixed ranges:
    a trial count between 1294 and 4446, a [prob_zero_mean] between 0.39
    and 1.08, and a [lambd] between 0.005 and 0.006.  So on every path,
    the fallbacks and the extrapolated piece included, the trial count
    and the scale of the exponential draw are positive.  The ranges are
    the exact ones ([1295, 4445], [0.3966, 1.079], [0.0054995, 0.00564])
    widened by far more than the rounding of the four operations. *)
Theorem parameter_calculation_bounds :
  forall rho : fl,
    exists r n p l : Q,
      _parameter_calculation rho = [Fin r; Fin n; Fin p; Fin l]
      /\ (1294 <= n)%Q /\ (n <= 4446)%Q
      /\ (0.39 <= p)%Q /\ (p <= 1.08)%Q
      /\ (0.005 <= l)%Q /\ (l <= 0.006)%Q.
Proof.
  assert (F : exists r n p l : Q,
             level 1 = [Fin r; Fin n; Fin p; Fin l]
             /\ (1294 <= n)%Q /\ (n <= 4446)%Q
             /\ (0.39 <= p)%Q /\ (p <= 1.08)%Q
             /\ (0.005 <= l)%Q /\ (l <= 0.006)%Q).
  { destruct level_1_items as [r [n [p [l [E [A [B [C [D [G H]]]]]]]]]].
    exists r, n, p, l. repeat split; try assumption; lra. }
  intros [q | [] |]; try exact F.
  destruct (parameter_calculation_cases q)
    as [[_ E] | [[H0 [H1 E]] | [[H0 [H1 E]] | [[H0 [H1 E]]
        | [[H0 [H1 E]] | [_ E]]]]]]; rewrite E; try exact F.
  - row_of_interpolation q 0.2 0 0%nat 1%nat. repeat split; lra.
  - row_of_interpolation q 0.4 0.2 1%nat 2%nat. repeat split; lra.
  - row_of_interpolation q 0.6 0.4 2%nat 3%nat. repeat split; lra.
  - row_of_interpolation q 0.8 0.6 3%nat 4%nat. repeat split; lra.
Qed.

(** X3. On the extrapolated piece the second structural parameter leaves
    the range of a probability: for [0.935 <= rho < 1] the returned
    [prob_zero_mean] is at least 1.001, so the simulator's test
    [prob_vec > prob_zero_mean] fails for every uniform draw and no
    simulated strategy gets a non-zero mean.  Up to [rho = 0.8] it stays
    below 0.84.  Both bounds leave a margin (the exact values are
    1.00100325 at 0.935 and 0.83901 at 0.8) that rounding does not
    reach. *)
Theorem prob_zero_mean_exceeds_one :
  forall q : Q,
    exists p : Q,
      item (_parameter_calculation (Fin q)) 2 = Fin p
      /\ ((0.935 <= q)%Q -> (q < 1)%Q ->
          (1.001 <= p)%Q
          /\ forall u : Q, (u <= 1)%Q -> fl_ltb (Fin p) (Fin u) = false)
      /\ ((q <= 0.8)%Q -> (p <= 0.84)%Q).
Proof.
  intro q.
  destruct (parameter_calculation_cases q)
    as [[H E] | [[H0 [H1 E]] | [[H0 [H1 E]] | [[H0 [H1 E]]
        | [[H0 [H1 E]] | [H E]]]]]].
  1, 6: rewrite E; eexists; split; [reflexivity |];
        split; [intros; lra | intros _; lra].
  all: interpolated 2%nat; eexists; (split; [reflexivity |]);
       simpl; unfold inject_Z; rewrite !Qdiv_fifth;
       (split; [intros A B; split;
                [lra | intros u Hu; apply fl_ltb_Fin_false;
                       rewrite !Qdiv_fifth; lra]
               | intro A; lra]).
Qed.

Lemma prob_zero_mean_exceeds_one_witness :
  exists p : Q,
    item (_parameter_calculation (Fin 0.95)) 2 = Fin p /\ (1.001 <= p)%Q.
Proof.
  destruct (prob_zero_mean_exceeds_one 0.95) as [p [E [H _]]].
  exists p. split; [exact E |]. apply H; lra.
Defined.

(* ------------------------------------------------------------------ *)
(** ** The two frequency tables *)

Lemma Qfloor_int_quotient (a : Z) (d : positive) :
  Qfloor (inject_Z a / inject_Z (Zpos d)) = (a / Zpos d)%Z.
Proof.
  unfold Qdiv, Qmult, Qinv, inject_Z, Qfloor. simpl.
  now rewrite Z.mul_1_r.
Qed.

(** X5. For the five frequency codes the two lookups agree with each
    other: [_monthly_observations] returns
    [12 * num_obs // times_per_year], the floor of twelve times the
    observation count over the periods per year that
    [_annualized_sharpe_ratio] uses (30 daily or 13/3 weekly observations
    to the month, 3 months to the quarter, 12 to the year), for negative
    counts as well. *)
Theorem monthly_observations_valid_codes :
  forall (num_obs : Z) (sampling_frequency : string),
    In sampling_frequency frequency_codes ->
    _monthly_observations num_obs sampling_frequency
    = of_int (num_obs * 12 / times_per_year sampling_frequency).
Proof.
  intros n sf H. simpl in H.
  destruct H as [<- | [<- | [<- | [<- | [<- | []]]]]];
    unfold _monthly_observations, times_per_year; simpl String.eqb; cbv iota;
    unfold of_int at 1; rewrite fl_div_int by discriminate;
    unfold np_floor; now rewrite Qfloor_int_quotient.
Qed.

Lemma monthly_observations_valid_codes_witness :
  _monthly_observations 1250 "D" = of_int 41
  /\ _monthly_observations 100 "W" = of_int 23
  /\ _monthly_observations (-7) "D" = of_int (-1).
Proof.
  split; [| split].
  - apply (monthly_observations_valid_codes 1250 "D"). simpl. tauto.
  - apply (monthly_observations_valid_codes 100 "W"). simpl. tauto.
  - apply (monthly_observations_valid_codes (-7) "D"). simpl. tauto.
Defined.

(* ------------------------------------------------------------------ *)
(** ** Holm against Bonferroni *)

Lemma holm_running_max_first (all_p_values : list fl) (M : Z) :
  holm_running_max all_p_values M 1 = holm_term all_p_values M 1.
Proof. reflexivity. Qed.

(** X6. When the real strategy's p-value is the lowest of a repetition
    (it stands first in the sorted array), [_holm_method] returns
    [min((num_mult_test + 1) * p_val, 1)]: one test more than Bonferroni
    counts, so at rank one the Holm value is never below the Bonferroni
    value [min(num_mult_test * p_val, 1)]. *)
Theorem holm_at_rank_one :
  forall (p : Q) (others : list fl) (num_mult_test : Z),
    (0 <= num_mult_test)%Z ->
    Z.of_nat (length others) = num_mult_test ->
    (0 <= p)%Q ->
    _holm_method (Fin p :: others) num_mult_test (Fin p)
    = Ok (py_min (Fin (inject_Z (num_mult_test + 1) * p)) (of_int 1))
    /\ fl_leb (bonferroni num_mult_test (Fin p))
              (py_min (Fin (inject_Z (num_mult_test + 1) * p)) (of_int 1))
       = true.
Proof.
  intros p others M HM HL Hp. split.
  - unfold _holm_method.
    rewrite holm_values_ok by (simpl length; lia).
    rewrite py_range_cons by lia. simpl bind.
    rewrite np_mask_ok
      by (simpl; rewrite !length_map, py_range_length; lia).
    replace (Qeq_bool p p) with true
      by (symmetry; apply Qeqb_true; reflexivity).
    simpl select. simpl bind.
    unfold py_index. simpl. f_equal.
    rewrite holm_running_max_first. unfold holm_term. simpl nth.
    replace (M + 1 - 1 + 1)%Z with (M + 1)%Z by lia. reflexivity.
  - rewrite bonferroni_Fin. unfold of_int. rewrite py_min_Fin.
    assert (Hs : (inject_Z M * p <= inject_Z (M + 1) * p)%Q)
      by (apply scale_le; [exact Hp | lia]).
    apply fl_leb_Fin.
    destruct (fl_ltb (Fin (inject_Z 1)) (Fin (inject_Z M * p))) eqn:E1;
      destruct (fl_ltb (Fin (inject_Z 1)) (Fin (inject_Z (M + 1) * p))) eqn:E2.
    + apply Qle_refl.
    + apply fl_ltb_Fin in E1.
      eapply Qle_trans; [apply Qlt_le_weak, E1 | exact Hs].
    + apply fl_ltb_Fin_false in E1. exact E1.
    + exact Hs.
Qed.

Lemma holm_at_rank_one_witness :
  _holm_method (map Fin [0.001; 0.2; 0.5; 0.9]) 3 (Fin 0.001)
  = Ok (py_min (Fin (inject_Z 4 * 0.001)) (of_int 1))
  /\ fl_leb (bonferroni 3 (Fin 0.001))
            (py_min (Fin (inject_Z 4 * 0.001)) (of_int 1)) = true.
Proof.
  apply (holm_at_rank_one 0.001 (map Fin [0.2; 0.5; 0.9]) 3);
    [lia | reflexivity | lra].
Defined.

(* ------------------------------------------------------------------ *)
(** ** The top rank of the BHY array *)

Lemma bhy_fold_suffix (all_p_values : list fl) (M : Z) (range : list Z) :
  forall st st',
    foldM (bhy_step all_p_values M) range st = Ok st' ->
    exists front, fst st' = front ++ fst st
                  /\ length front = length range.
Proof.
  induction range as [| i range IH]; intros st st' H.
  - injection H as <-. now exists [].
  - rewrite foldM_cons in H. apply bind_Ok_inv in H.
    destruct H as [st1 [E1 H]]. destruct st as [l prev].
    unfold bhy_step in E1. apply bind_Ok_inv in E1.
    destruct E1 as [x [_ E1]]. injection E1 as <-.
    destruct (IH _ _ H) as [front [F L]]. simpl in F.
    exists (front ++ [x]). split.
    + rewrite F, <- app_assoc. reflexivity.
    + rewrite length_app, L. simpl. lia.
Qed.

Lemma sorted_below_last (front : list fl) (top : fl) :
  nondecreasing (front ++ [top]) -> Forall (fun x => fl_le x top) front.
Proof.
  induction front as [| x front IH]; intro H; [constructor |].
  simpl in H. inversion H as [| ? ? Hs Hx]; subst. constructor.
  - rewrite Forall_forall in Hx. apply Hx, in_or_app. right. now left.
  - now apply IH.
Qed.

Lemma select_all_false {A : Type} (values : list A) :
  forall mask, Forall (fun b => b = false) mask -> select values mask = [].
Proof.
  induction values as [| v vs IH]; intros [| b bs] H; try reflexivity.
  inversion H; subst. simpl. now apply IH.
Qed.

Lemma select_app {A : Type} (u : list A) :
  forall (m : list bool) (v : list A) (n : list bool),
    length u = length m ->
    select (u ++ v) (m ++ n) = select u m ++ select v n.
Proof.
  induction u as [| x u IH]; intros [| b m] v n H; try discriminate;
    [reflexivity |].
  simpl in *. destruct b; simpl; [f_equal |]; apply IH; lia.
Qed.

(** X7. The BHY array is built down from the largest raw p-value, which
    it keeps as its last entry; every other adjusted value is at most that
    p-value, so no BHY value exceeds 1 when the p-values do not, though
    the method has no cap of its own.  If the real strategy's p-value is
    the largest and no other entry equals it, [_bhy_method] returns it
    unchanged. *)
Theorem bhy_values_below_top_rank :
  forall (lower : list Q) (top : Q) (num_mult_test : Z),
    Z.of_nat (length lower) = num_mult_test ->
    exists front : list fl,
      bhy_values (map Fin (lower ++ [top])) num_mult_test
      = Ok (front ++ [Fin top])
      /\ length front = length lower
      /\ Forall (fun x => fl_le x (Fin top)) front
      /\ (Forall (fun p => Qeq_bool p top = false) lower ->
          _bhy_method (map Fin (lower ++ [top])) num_mult_test (Fin top)
          = Ok [Fin top]).
Proof.
  intros lower top M HL.
  assert (HM : (0 <= M)%Z) by lia.
  assert (HL' : Z.of_nat (length (lower ++ [top])) = (M + 1)%Z)
    by (rewrite length_app; simpl; lia).
  destruct (bhy_values_sorted (lower ++ [top]) M HM HL') as [b [E [Lb Sb]]].
  assert (Hb : exists front, b = front ++ [Fin top]
                             /\ length front = length lower).
  { pose proof E as E'. unfold bhy_values in E'.
    rewrite py_range_down_cons in E' by lia. rewrite foldM_cons in E'.
    unfold bhy_step at 1 in E'. rewrite Z.eqb_refl in E'.
    assert (Hne : map Fin (lower ++ [top]) <> [])
      by (rewrite map_app; simpl; intro N; now apply app_eq_nil in N).
    rewrite (py_index_last _ NaN Hne) in E'. simpl bind in E'.
    replace (nth (length (map Fin (lower ++ [top])) - 1)
               (map Fin (lower ++ [top])) NaN) with (Fin top) in E'.
    2:{ rewrite map_app, length_app, app_nth2; rewrite length_map; simpl;
        [now replace (length lower + 1 - 1 - length lower)%nat with 0%nat
           by lia | lia]. }
    apply bind_Ok_inv in E'. destruct E' as [st' [F E']].
    injection E' as <-.
    destruct (bhy_fold_suffix _ _ _ _ _ F) as [front [Ef Lf]].
    exists front. split; [exact Ef |].
    rewrite Lf, py_range_down_length. lia. }
  destruct Hb as [front [-> Lf]].
  exists front. split; [exact E | split; [exact Lf | split]].
  - now apply sorted_below_last.
  - intro Hneq. unfold _bhy_method. rewrite E. simpl bind.
    rewrite np_mask_ok by (rewrite !length_map, !length_app; simpl; lia).
    f_equal. rewrite !map_app.
    rewrite select_app by (rewrite !length_map; exact Lf).
    rewrite select_all_false.
    + simpl. now replace (Qeq_bool top top) with true
        by (symmetry; apply Qeqb_true; reflexivity).
    + rewrite !Forall_map. simpl. exact Hneq.
Qed.

Lemma bhy_values_below_top_rank_witness :
  exists front : list fl,
    bhy_values (map Fin ([0.01; 0.02; 0.5] ++ [0.9])) 3
    = Ok (front ++ [Fin 0.9])
    /\ Forall (fun x => fl_le x (Fin 0.9)) front
    /\ _bhy_method (map Fin ([0.01; 0.02; 0.5] ++ [0.9])) 3 (Fin 0.9)
       = Ok [Fin 0.9].
Proof.
  destruct (bhy_values_below_top_rank [0.01; 0.02; 0.5] 0.9 3 eq_refl)
    as [front [E [_ [F U]]]].
  exists front. split; [exact E | split; [exact F |]].
  apply U. repeat constructor.
Defined.

(* ------------------------------------------------------------------ *)
(** ** The Holm array between the raw p-values and 1 *)

Lemma py_max_ge_r (m a : fl) : finite m -> finite a -> fl_le a (py_max m a).
Proof.
  intros Hm Ha.
  destruct (finite_Fin m Hm) as [p ->]. destruct (finite_Fin a Ha) as [q ->].
  unfold py_max. destruct (fl_ltb (Fin p) (Fin q)) eqn:E.
  - apply fl_leb_Fin, Qle_refl.
  - apply fl_ltb_Fin_false in E. now apply fl_leb_Fin.
Qed.

Lemma holm_running_max_ge_term (ps : list Q) (M i : Z) :
  (1 <= i <= Z.of_nat (length ps))%Z ->
  fl_le (holm_term (map Fin ps) M i) (holm_running_max (map Fin ps) M i).
Proof.
  intro H. destruct (Z.eq_dec i 1) as [-> | Hi].
  - rewrite holm_running_max_first. apply fl_le_refl.
    apply holm_term_finite. lia.
  - replace i with (i - 1 + 1)%Z at 2 by lia.
    rewrite holm_running_max_step by lia.
    replace (i - 1 + 1)%Z with i by lia.
    apply py_max_ge_r;
      [apply holm_running_max_finite | apply holm_term_finite]; lia.
Qed.

Lemma list_as_map_over_range (ps : list Q) :
  ps = map (fun i => nth (Z.to_nat (i - 1)) ps 0%Q)
           (py_range 1 (Z.of_nat (length ps) + 1)).
Proof.
  unfold py_range. rewrite map_map.
  replace (Z.to_nat (Z.of_nat (length ps) + 1 - 1)) with (length ps) by lia.
  set (f := fun k : nat => nth (Z.to_nat (1 + Z.of_nat k - 1)) ps 0%Q).
  apply nth_ext with (d := 0%Q) (d' := f 0%nat).
  - now rewrite length_map, length_seq.
  - intros n Hn. rewrite (map_nth f (seq 0 (length ps)) 0%nat n).
    rewrite seq_nth by exact Hn. unfold f. f_equal. lia.
Qed.

Lemma Forall2_map_same {A B C : Type} (R : B -> C -> Prop)
  (f : A -> B) (g : A -> C) (l : list A) :
  (forall x, In x l -> R (f x) (g x)) -> Forall2 R (map f l) (map g l).
Proof.
  induction l as [| a l IH]; intro H; simpl; constructor.
  - apply H. now left.
  - apply IH. intros x Hx. apply H. now right.
Qed.

(** X8. For p-values between 0 and 1, every entry of the intermediate
    Holm array lies between the raw p-value of its rank and 1: the Holm
    adjustment never lowers a p-value and never leaves the range of a
    probability. *)
Theorem holm_values_between_raw_and_one :
  forall (p_values : list Q) (num_mult_test : Z),
    (0 <= num_mult_test)%Z ->
    Z.of_nat (length p_values) = (num_mult_test + 1)%Z ->
    Forall (fun p => (0 <= p)%Q /\ (p <= 1)%Q) p_values ->
    exists p_holm_values : list fl,
      holm_values (map Fin p_values) num_mult_test = Ok p_holm_values
      /\ Forall2 (fun p h => fl_le (Fin p) h /\ fl_le h (of_int 1))
                 p_values p_holm_values.
Proof.
  intros ps M HM HL Hp. eexists. split.
  - apply holm_values_ok; [exact HM | now rewrite length_map].
  - rewrite (list_as_map_over_range ps) at 1.
    replace (Z.of_nat (length ps) + 1)%Z with (M + 2)%Z by lia.
    apply Forall2_map_same. intros i Hi. apply py_range_In in Hi.
    assert (Hf : finite (holm_running_max (map Fin ps) M i))
      by (apply holm_running_max_finite; lia).
    assert (Hin : In (nth (Z.to_nat (i - 1)) ps 0%Q) ps)
      by (apply nth_In; lia).
    rewrite Forall_forall in Hp. destruct (Hp _ Hin) as [P0 P1].
    split; [| now apply py_min_le_r].
    assert (Hterm : fl_le (Fin (nth (Z.to_nat (i - 1)) ps 0%Q))
                          (holm_term (map Fin ps) M i)).
    { unfold holm_term.
      rewrite (nth_indep _ NaN (Fin 0)) by (rewrite length_map; lia).
      rewrite (map_nth Fin ps 0%Q). unfold of_int. simpl fl_mul.
      apply fl_leb_Fin.
      setoid_replace (nth (Z.to_nat (i - 1)) ps 0%Q)
        with (inject_Z 1 * nth (Z.to_nat (i - 1)) ps 0%Q)%Q at 1
        by (simpl; ring).
      apply scale_le; [exact P0 | lia]. }
    assert (Hmax : fl_le (Fin (nth (Z.to_nat (i - 1)) ps 0%Q))
                         (holm_running_max (map Fin ps) M i)).
    { eapply fl_le_trans; [exact Hterm |].
      apply holm_running_max_ge_term. lia. }
    destruct (finite_Fin _ Hf) as [m Em]. rewrite Em in *.
    unfold of_int. rewrite py_min_Fin. apply fl_leb_Fin.
    apply fl_leb_Fin in Hmax.
    destruct (fl_ltb (Fin (inject_Z 1)) (Fin m)); [exact P1 | exact Hmax].
Qed.

Lemma holm_values_between_raw_and_one_witness :
  exists p_holm_values : list fl,
    holm_values (map Fin [0.01; 0.02; 0.5; 0.9]) 3 = Ok p_holm_values
    /\ Forall2 (fun p h => fl_le (Fin p) h /\ fl_le h (of_int 1))
               [0.01; 0.02; 0.5; 0.9] p_holm_values.
Proof.
  apply (holm_values_between_raw_and_one [0.01; 0.02; 0.5; 0.9] 3);
    [lia | reflexivity |].
  repeat constructor; discriminate.
Defined.

(* ------------------------------------------------------------------ *)
(** ** One pass of the simulation loop *)

From Stdlib Require Import Permutation.

Lemma count_true_permutation {A : Type} (f : A -> bool) (l l' : list A) :
  Permutation l l' -> count_true (map f l) = count_true (map f l').
Proof.
  unfold count_true. induction 1 as [| x l l' _ IH | x y l | l l' l'' _ IH1 _ IH2].
  - reflexivity.
  - simpl. destruct (f x); simpl; congruence.
  - simpl. destruct (f x), (f y); reflexivity.
  - congruence.
Qed.

Lemma count_true_all_false (mask : list bool) :
  Forall (fun b => b = false) mask -> count_true mask = 0%nat.
Proof.
  unfold count_true. induction 1 as [| b mask Hb _ IH]; [reflexivity |].
  subst b. exact IH.
Qed.

Lemma count_true_app (m n : list bool) :
  count_true (m ++ n) = (count_true m + count_true n)%nat.
Proof. unfold count_true. now rewrite filter_app, length_app. Qed.

Lemma np_sort_permutation (l : list fl) : Permutation l (np_sort l).
Proof. apply FlSort.Permuted_sort. Qed.

(** The array of one repetition: a rearrangement of the [num_mult_test]
    simulated p-values and [p_val]. *)
Lemma repetition_p_values_ok (norm_cdf : fl -> fl) (t_sample : ndarray2)
  (simulation_number num_mult_test : Z) (p_val : fl) :
  (1 <= simulation_number <= Z.of_nat (nrows t_sample))%Z ->
  (0 <= num_mult_test)%Z ->
  (num_mult_test + 1 <= Z.of_nat (ncols t_sample))%Z ->
  exists others all_p : list fl,
    t_values_simulation t_sample simulation_number num_mult_test = Ok others
    /\ repetition_p_values norm_cdf t_sample simulation_number num_mult_test
         p_val = Ok all_p
    /\ Permutation (p_values_simulation norm_cdf others ++ [p_val]) all_p
    /\ Z.of_nat (length all_p) = (num_mult_test + 1)%Z.
Proof.
  intros Hs HM Hc.
  destruct (simulated_trials_skip_first_entry norm_cdf t_sample
              simulation_number num_mult_test p_val Hs HM Hc)
    as [E [L R]].
  do 2 eexists. split; [exact E | split; [exact R | split]].
  - apply np_sort_permutation.
  - rewrite <- (Permutation_length (np_sort_permutation _)).
    unfold p_values_simulation. rewrite length_app, length_map, L.
    simpl. lia.
Qed.

Lemma lookup_without_match (all_p : list fl) (M : Z) (p_val : fl) :
  (0 <= M)%Z -> Z.of_nat (length all_p) = (M + 1)%Z ->
  count_true (map (fun p => fl_eqb p p_val) all_p) = 0%nat ->
  _holm_method all_p M p_val = Raise IndexError
  /\ _bhy_method all_p M p_val = Ok [].
Proof.
  intros HM HL H0.
  set (mask := map (fun p => fl_eqb p p_val) all_p) in *.
  destruct (bhy_values_ok all_p M HM HL) as [b [Eb Lb]].
  pose proof (holm_values_ok all_p M HM HL) as Eh.
  set (h := map _ (py_range 1 (M + 2))) in Eh.
  assert (Lh : length h = length mask)
    by (unfold h, mask; rewrite !length_map, py_range_length; lia).
  assert (Lbm : length b = length mask)
    by (unfold mask; rewrite length_map; lia).
  split.
  - unfold _holm_method. rewrite Eh. simpl bind.
    rewrite np_mask_ok by exact Lh. fold mask. simpl bind.
    pose proof (select_length h mask Lh) as Ls. rewrite H0 in Ls.
    destruct (select h mask); [reflexivity | discriminate].
  - unfold _bhy_method. rewrite Eb. simpl bind.
    rewrite np_mask_ok by exact Lbm. fold mask.
    pose proof (select_length b mask Lbm) as Ls. rewrite H0 in Ls.
    destruct (select b mask); [reflexivity | discriminate].
Qed.

(** X9. If the raw p-value is NaN (it equals nothing, itself included),
    the lookup [p_holm_values[all_p_values == p_val]] selects nothing and
    the first pass of the loop ends in [IndexError]: the orchestrator
    stops instead of carrying the NaN into the table.  The same holds at
    the level of the two methods for any [p_val] that no entry equals:
    [_holm_method] raises [IndexError], [_bhy_method] returns an empty
    array. *)
Theorem nan_p_value_raises_index_error :
  forall (norm_cdf : fl -> fl) (t_sample : ndarray2)
         (simulation_number num_mult_test : Z) (p_holm p_bhy : list fl),
    (1 <= simulation_number <= Z.of_nat (nrows t_sample))%Z ->
    (0 <= num_mult_test)%Z ->
    (num_mult_test + 1 <= Z.of_nat (ncols t_sample))%Z ->
    simulation_step norm_cdf t_sample num_mult_test NaN (p_holm, p_bhy)
      simulation_number = Raise IndexError
    /\ (forall (all_p_values : list fl) (p_val : fl),
          Z.of_nat (length all_p_values) = (num_mult_test + 1)%Z ->
          Forall (fun p => fl_eqb p p_val = false) all_p_values ->
          _holm_method all_p_values num_mult_test p_val = Raise IndexError
          /\ _bhy_method all_p_values num_mult_test p_val = Ok []).
Proof.
  intros norm_cdf t_sample sim M p_holm p_bhy Hs HM Hc.
  assert (G : forall (all_p : list fl) (p_val : fl),
             Z.of_nat (length all_p) = (M + 1)%Z ->
             Forall (fun p => fl_eqb p p_val = false) all_p ->
             _holm_method all_p M p_val = Raise IndexError
             /\ _bhy_method all_p M p_val = Ok []).
  { intros all_p p_val HL Hno. apply lookup_without_match; try assumption.
    apply count_true_all_false. now rewrite Forall_map. }
  split; [| exact G].
  destruct (repetition_p_values_ok norm_cdf t_sample sim M NaN Hs HM Hc)
    as [others [all_p [_ [R [_ L]]]]].
  unfold simulation_step. rewrite R. simpl bind.
  destruct (G all_p NaN L) as [Eh _].
  - apply Forall_forall. intros p _. now destruct p as [q | s |].
  - now rewrite Eh.
Qed.

Lemma nan_p_value_raises_index_error_witness :
  simulation_step Toy.norm_cdf counting_panel 2 NaN ([NaN], [NaN]) 1
  = Raise IndexError.
Proof.
  apply (nan_p_value_raises_index_error Toy.norm_cdf counting_panel 1 2
           [NaN] [NaN]); simpl; lia.
Defined.

(** X10. A pass of the loop goes through when the real strategy's p-value
    is a number (it equals itself) and none of the [num_mult_test]
    simulated p-values equals it: the sorted array then holds it exactly
    once, [_holm_method] returns a value and [_bhy_method] an array of
    one value, and the pass stores these two in the slot
    [simulation_number - 1] of [p_holm] and of [p_bhy], leaving the other
    slots as they were. *)
Theorem simulation_step_stores_both_values :
  forall (norm_cdf : fl -> fl) (t_sample : ndarray2)
         (simulation_number num_mult_test : Z) (p_val : fl)
         (p_holm p_bhy : list fl) (others : list fl),
    (1 <= simulation_number <= Z.of_nat (nrows t_sample))%Z ->
    (simulation_number <= Z.of_nat (length p_holm))%Z ->
    (simulation_number <= Z.of_nat (length p_bhy))%Z ->
    (0 <= num_mult_test)%Z ->
    (num_mult_test + 1 <= Z.of_nat (ncols t_sample))%Z ->
    fl_eqb p_val p_val = true ->
    t_values_simulation t_sample simulation_number num_mult_test = Ok others ->
    Forall (fun p => fl_eqb p p_val = false)
           (p_values_simulation norm_cdf others) ->
    exists (all_p_values p_holm' p_bhy' : list fl) (holm bhy : fl),
      let slot := Z.to_nat (simulation_number - 1) in
      repetition_p_values norm_cdf t_sample simulation_number num_mult_test
        p_val = Ok all_p_values
      /\ _holm_method all_p_values num_mult_test p_val = Ok holm
      /\ _bhy_method all_p_values num_mult_test p_val = Ok [bhy]
      /\ simulation_step norm_cdf t_sample num_mult_test p_val (p_holm, p_bhy)
           simulation_number
         = Ok (p_holm', p_bhy')
      /\ length p_holm' = length p_holm /\ length p_bhy' = length p_bhy
      /\ nth slot p_holm' NaN = holm /\ nth slot p_bhy' NaN = bhy
      /\ (forall j : nat,
            j <> slot ->
            nth j p_holm' NaN = nth j p_holm NaN
            /\ nth j p_bhy' NaN = nth j p_bhy NaN).
Proof.
  intros norm_cdf t_sample sim M p_val p_holm p_bhy others
         Hs Hh Hb HM Hc Hself Eo Hno.
  destruct (repetition_p_values_ok norm_cdf t_sample sim M p_val Hs HM Hc)
    as [others' [all_p [Eo' [R [P L]]]]].
  rewrite Eo in Eo'. injection Eo' as <-.
  set (mask := map (fun p => fl_eqb p p_val) all_p).
  assert (C1 : count_true mask = 1%nat).
  { unfold mask.
    rewrite <- (count_true_permutation (fun p => fl_eqb p p_val) _ _ P).
    rewrite map_app, count_true_app.
    rewrite count_true_all_false by now rewrite Forall_map.
    simpl. unfold count_true. simpl. now rewrite Hself. }
  destruct (bhy_values_ok all_p M HM L) as [b [Eb Lb]].
  pose proof (holm_values_ok all_p M HM L) as Eh.
  set (h := map _ (py_range 1 (M + 2))) in Eh.
  assert (Lh : length h = length mask)
    by (unfold h, mask; rewrite !length_map, py_range_length; lia).
  assert (Lbm : length b = length mask)
    by (unfold mask; rewrite length_map; lia).
  pose proof (select_length h mask Lh) as Sh. rewrite C1 in Sh.
  pose proof (select_length b mask Lbm) as Sb. rewrite C1 in Sb.
  destruct (scalar_of_single _ Sh) as [vh [Evh _]].
  destruct (scalar_of_single _ Sb) as [vb [Evb Svb]].
  assert (Holm : _holm_method all_p M p_val = Ok vh).
  { unfold _holm_method. rewrite Eh. simpl bind.
    rewrite np_mask_ok by exact Lh. fold mask. rewrite Evh. reflexivity. }
  assert (Bhy : _bhy_method all_p M p_val = Ok [vb]).
  { unfold _bhy_method. rewrite Eb. simpl bind.
    rewrite np_mask_ok by exact Lbm. fold mask. now rewrite Evb. }
  exists all_p, (set_nth p_holm (Z.to_nat (sim - 1)) vh),
         (set_nth p_bhy (Z.to_nat (sim - 1)) vb), vh, vb.
  cbv zeta.
  split; [exact R | split; [exact Holm | split; [exact Bhy |]]].
  split.
  { unfold simulation_step. rewrite R. simpl bind.
    rewrite Holm. simpl bind.
    rewrite np_setitem_ok by lia. simpl bind.
    rewrite Bhy. simpl bind.
    rewrite np_setitem_ok by lia. reflexivity. }
  rewrite !set_nth_length, !nth_set_nth_same by lia.
  repeat (split; [reflexivity |]).
  intros j Hj. now rewrite !nth_set_nth_other by congruence.
Qed.

Lemma simulation_step_stores_both_values_witness :
  exists (all_p_values : list fl) (holm bhy : fl),
    repetition_p_values Toy.norm_cdf counting_panel 1 2 (Fin 0.5)
    = Ok all_p_values
    /\ _holm_method all_p_values 2 (Fin 0.5) = Ok holm
    /\ _bhy_method all_p_values 2 (Fin 0.5) = Ok [bhy]
    /\ simulation_step Toy.norm_cdf counting_panel 2 (Fin 0.5)
         ([of_int 1], [of_int 1]) 1
       = Ok ([holm], [bhy]).
Proof.
  assert (Stored :
    exists (all_p_values p_holm' p_bhy' : list fl) (holm bhy : fl),
      repetition_p_values Toy.norm_cdf counting_panel 1 2 (Fin 0.5)
      = Ok all_p_values
      /\ _holm_method all_p_values 2 (Fin 0.5) = Ok holm
      /\ _bhy_method all_p_values 2 (Fin 0.5) = Ok [bhy]
      /\ simulation_step Toy.norm_cdf counting_panel 2 (Fin 0.5)
           ([of_int 1], [of_int 1]) 1
         = Ok (p_holm', p_bhy')
      /\ length p_holm' = 1%nat /\ length p_bhy' = 1%nat
      /\ nth 0 p_holm' NaN = holm /\ nth 0 p_bhy' NaN = bhy
      /\ (forall j : nat,
            j <> 0%nat ->
            nth j p_holm' NaN = nth j [of_int 1] NaN
            /\ nth j p_bhy' NaN = nth j [of_int 1] NaN)).
  { apply (simulation_step_stores_both_values Toy.norm_cdf counting_panel
             1 2 (Fin 0.5) [of_int 1] [of_int 1] [of_int 1; of_int 2]);
      try (simpl; lia); try reflexivity.
    repeat constructor. }
  destruct Stored
    as [all_p [p_holm' [p_bhy' [holm [bhy
        [R [H [B [S [L1 [L2 [N1 [N2 _]]]]]]]]]]]]].
  exists all_p, holm, bhy.
  split; [exact R | split; [exact H | split; [exact B |]]].
  rewrite S.
  destruct p_holm' as [| x [| ? ?]]; try discriminate L1.
  destruct p_bhy' as [| y [| ? ?]]; try discriminate L2.
  simpl in N1, N2. now subst.
Defined.

(* ------------------------------------------------------------------ *)
(** ** A negative number of tests *)

Lemma py_div_raises (x y : fl) (e : exn) :
  py_div x y = Raise e -> e = ZeroDivisionError.
Proof.
  unfold py_div. destruct y as [b | s |]; try discriminate.
  destruct (Qzero b); [| discriminate]. now intros [= <-].
Qed.

Lemma bind_Raise_inv {A B : Type} (m : result A) (k : A -> result B)
  (e : exn) :
  bind m k = Raise e -> m = Raise e \/ exists a, m = Ok a /\ k a = Raise e.
Proof.
  destruct m as [a | e']; simpl; intro H; [right; now exists a |].
  left. now injection H as ->.
Qed.

Lemma py_pow_raises (x : fl) (n : positive) (e : exn) :
  py_pow x n = Raise e -> e = OverflowError.
Proof.
  unfold py_pow. destruct (fl_pow x n) as [q | s |]; try discriminate.
  destruct (Qle_bool _ _); [discriminate |]. now intros [= <-].
Qed.

(** The ways [_annualized_sharpe_ratio] fails: a division by [1 - rho]
    or a zero base of the power [** (-0.5)], and the overflow of
    [rho ** times_per_year]. *)
Lemma annualized_raises (sqrt rsqrt : fl -> fl) (sr : fl) (sf : string)
  (rho : fl) (annualized autocorr_adjusted : bool) (e : exn) :
  _annualized_sharpe_ratio sqrt rsqrt sr sf rho annualized autocorr_adjusted
  = Raise e ->
  e = ZeroDivisionError \/ e = OverflowError.
Proof.
  unfold _annualized_sharpe_ratio. intro H.
  apply bind_Raise_inv in H. destruct H as [H | [m [_ H]]]; [| discriminate].
  destruct (negb autocorr_adjusted); [| discriminate].
  apply bind_Raise_inv in H. destruct H as [H | [a [_ H]]];
    [left; now apply py_div_raises in H |].
  apply bind_Raise_inv in H. destruct H as [H | [power [_ H]]];
    [right; now apply py_pow_raises in H |].
  apply bind_Raise_inv in H. destruct H as [H | [b [_ H]]];
    [left; now apply py_div_raises in H |].
  unfold py_pow_neg_half in H. left.
  destruct (fl_eqb _ _); [now injection H as <- | discriminate].
Qed.

Lemma num_trails_of_negative (M : Z) (parameters : list fl) (n : Q) :
  (M < 0)%Z -> item parameters 1 = Fin n -> (0 < n)%Q ->
  exists trails : Z,
    num_trails M parameters = Ok trails /\ (trails <= 0)%Z.
Proof.
  intros HM E Hn. rewrite (num_trails_Fin M parameters n E Hn).
  eexists. split; [reflexivity |].
  set (f := Qfloor (inject_Z M / n)). set (g := Qfloor (n + inject_Z 1)).
  assert (Hf : (f < 0)%Z).
  { assert (Hq : (inject_Z M / n < 0)%Q).
    { apply Qlt_shift_div_r; [exact Hn |]. rewrite Qmult_0_l.
      change 0%Q with (inject_Z 0). now rewrite <- Zlt_Qlt. }
    pose proof (Qfloor_le (inject_Z M / n)) as Hle. fold f in Hle.
    rewrite Zlt_Qlt. change (inject_Z 0) with 0%Q.
    eapply Qle_lt_trans; eassumption. }
  assert (Hg : (0 <= g)%Z).
  { change 0%Z with (Qfloor (inject_Z 0)). apply Qfloor_resp_le.
    simpl inject_Z. unfold inject_Z. lra. }
  nia.
Qed.

(** X11. With a negative [num_mult_test] the call never returns a table:
    the number of trials [int((floor(num_mult_test / n) + 1) *
    floor(n + 1))] is then zero or negative, and when the frequency
    normaliser has not already failed (a division by zero, or the
    overflow of [rho ** times_per_year]), [_sample_random_multest] stops
    at [np.ones((1, n_trails - 1))].  The call ends in [ValueError],
    [ZeroDivisionError] or [OverflowError], whatever the other arguments
    are. *)
Theorem negative_num_mult_test_raises :
  forall (sqrt rsqrt : fl -> fl) (t_cdf t_ppf : fl -> fl -> fl)
         (norm_cdf : fl -> fl) (shock_mat prob_vec mean_vec : nat -> nat -> fl)
         (self : CampbellBacktesting) (sampling_frequency : string)
         (num_obs : Z) (sharpe_ratio : fl)
         (annualized autocorr_adjusted : bool) (rho_a : fl)
         (num_mult_test : Z) (rho : fl),
    (num_mult_test < 0)%Z ->
    exists e : exn,
      haircut_sharpe_ratios sqrt rsqrt t_cdf t_ppf norm_cdf
        shock_mat prob_vec mean_vec self sampling_frequency num_obs
        sharpe_ratio annualized autocorr_adjusted rho_a num_mult_test rho
      = Raise e
      /\ (e = ValueError \/ e = ZeroDivisionError \/ e = OverflowError).
Proof.
  intros until rho. intro HM. unfold haircut_sharpe_ratios.
  destruct (_annualized_sharpe_ratio sqrt rsqrt sharpe_ratio
              sampling_frequency rho_a annualized autocorr_adjusted)
    as [sr_annual | e] eqn:E1.
  2:{ exists e. split; [reflexivity |]. right.
      now apply annualized_raises in E1. }
  simpl bind.
  destruct (parameter_n_trials_positive rho) as [n [En Hn]].
  destruct (num_trails_of_negative num_mult_test _ n HM En) as [k [Ek Hk]];
    [lra |].
  rewrite Ek. simpl bind. unfold _sample_random_multest.
  destruct (py_div (lit 0.15) (sqrt (of_int 12))) as [mv | e] eqn:E2.
  2:{ exists e. apply py_div_raises in E2. subst e.
      split; [reflexivity | tauto]. }
  simpl bind.
  replace (k - 1 <? 0)%Z with true by (symmetry; apply Z.ltb_lt; lia).
  exists ValueError. split; [reflexivity | tauto].
Qed.

Lemma negative_num_mult_test_raises_witness :
  exists e : exn,
    toy_haircut_sharpe_ratios __init__ "D" 1250 (lit 0.1) false true
      (of_int 0) (-5) (lit 0.4) = Raise e
    /\ (e = ValueError \/ e = ZeroDivisionError \/ e = OverflowError).
Proof.
  apply (negative_num_mult_test_raises Toy.sqrt Toy.rsqrt Toy.t_cdf
           Toy.t_ppf Toy.norm_cdf Toy.shock_mat Toy.prob_vec Toy.mean_vec
           __init__ "D" 1250 (lit 0.1) false true (of_int 0) (-5) (lit 0.4)).
  lia.
Defined.

(* ------------------------------------------------------------------ *)
(** ** The ends of the autocorrelation range *)

Lemma times_per_year_values (sf : string) :
  In (times_per_year sf) [360; 52; 12; 4; 1]%Z.
Proof.
  unfold times_per_year.
  repeat match goal with
         | |- context [if ?b then _ else _] => destruct b
         end; simpl; tauto.
Qed.

(** X12. An autocorrelation of -1 is as fatal as one of 1 at the four
    frequencies with an even number of periods per year: for 'D', 'W',
    'M' and 'Q' the base of the power [(...) ** (-0.5)] is exactly 0 and
    [_annualized_sharpe_ratio] raises [ZeroDivisionError] when the Sharpe
    ratio is not yet autocorrelation-adjusted. *)
Theorem autocorrelation_minus_one_raises :
  forall (sqrt rsqrt : fl -> fl) (sharpe_ratio : fl)
         (sampling_frequency : string) (annualized : bool),
    In sampling_frequency ["D"; "W"; "M"; "Q"]%string ->
    _annualized_sharpe_ratio sqrt rsqrt sharpe_ratio sampling_frequency
      (of_int (-1)) annualized false
    = Raise ZeroDivisionError.
Proof.
  intros sqrt rsqrt sr sf annualized H. simpl in H.
  destruct H as [<- | [<- | [<- | [<- | []]]]];
    unfold _annualized_sharpe_ratio; vm_compute; reflexivity.
Qed.

Lemma autocorrelation_minus_one_raises_witness :
  _annualized_sharpe_ratio Toy.sqrt Toy.rsqrt (lit 1.5) "M" (of_int (-1))
    false false
  = Raise ZeroDivisionError.
Proof.
  apply (autocorrelation_minus_one_raises Toy.sqrt Toy.rsqrt (lit 1.5) "M"
           false).
  simpl. tauto.
Defined.

(** X13. With an autocorrelation of 0, the default of the function, the
    autocorrelation multiplier is [1 ** (-0.5)] at every frequency, valid
    code or not: the base [1 + (2 * rho / (1 - rho)) * (...)] is exactly
    1, no division fails, and the result is the Sharpe ratio times the
    annualisation multiplier times that power. *)
Theorem zero_autocorrelation_is_neutral :
  forall (sqrt rsqrt : fl -> fl) (sharpe_ratio : fl)
         (sampling_frequency : string) (annualized : bool),
    exists base : Q,
      (base == 1)%Q
      /\ _annualized_sharpe_ratio sqrt rsqrt sharpe_ratio sampling_frequency
           (of_int 0) annualized false
         = Ok (fl_mul
                 (fl_mul sharpe_ratio
                    (if annualized then of_int 1
                     else sqrt (of_int (times_per_year sampling_frequency))))
                 (rsqrt (Fin base))).
Proof.
  intros sqrt rsqrt sr sf annualized.
  unfold _annualized_sharpe_ratio.
  pose proof (times_per_year_values sf) as H.
  set (T := times_per_year sf) in *. simpl in H.
  destruct H as [<- | [<- | [<- | [<- | [<- | []]]]]];
    destruct annualized; eexists; (split; [| vm_compute; reflexivity]);
    reflexivity.
Qed.

(* ------------------------------------------------------------------ *)
(** ** The haircut and the adjusted Sharpe ratio *)



(* ------------------------------------------------------------------ *)
(** ** The simulated panel *)

(** A float that does not compare below zero (NaN included). *)
Definition not_negative (x : fl) : Prop := fl_ltb x (of_int 0) = false.

Lemma fl_abs_not_negative (x : fl) : not_negative (fl_abs x).
Proof.
  destruct x as [q | s |]; try reflexivity.
  apply fl_ltb_Fin_false. apply Qabs_nonneg.
Qed.

Lemma fl_div_not_negative (x y : fl) :
  not_negative x -> not_negative y -> not_negative (fl_div x y).
Proof.
  unfold not_negative, of_int. change (inject_Z 0) with 0%Q.
  destruct x as [a | s |], y as [b | u |]; simpl fl_div; intros Hx Hy;
    try reflexivity.
  - apply fl_ltb_Fin_false in Hx, Hy.
    destruct (Qzero b) eqn:Eb.
    + destruct (Qzero a); [reflexivity |]. unfold Qneg.
      apply Qle_bool_iff in Hx. now rewrite Hx.
    + apply fl_ltb_Fin_false. apply Qzero_false in Eb.
      apply Qle_shift_div_l; [| now rewrite Qmult_0_l].
      destruct (Qle_lt_or_eq _ _ Hy) as [H | H]; [exact H |].
      symmetry in H. contradiction.
  - simpl in Hx. subst s. apply fl_ltb_Fin_false in Hy.
    unfold Qneg. apply Qle_bool_iff in Hy. now rewrite Hy.
Qed.

Lemma py_div_Ok (x y z : fl) : py_div x y = Ok z -> z = fl_div x y.
Proof.
  unfold py_div. destruct y as [b | s |];
    [destruct (Qzero b); [discriminate |] | |]; now intros [= <-].
Qed.

(** The steps of [_sample_random_multest] that can raise; when all of
    them go through, a panel is returned. *)
Lemma sample_steps_return (sqrt : fl -> fl)
  (shock_mat prob_vec mean_vec : nat -> nat -> fl) (rho : fl) (n_trails : Z)
  (prob_zero_mean lambd : fl) (n_simulations : Z) (annual_vol : fl)
  (n_obs : Z) (monthly_volatility variance variance_of_mean scale : fl) :
  py_div annual_vol (sqrt (of_int 12)) = Ok monthly_volatility ->
  (1 <= n_trails)%Z ->
  py_pow monthly_volatility 2 = Ok variance ->
  py_div variance (of_int n_obs) = Ok variance_of_mean ->
  (0 <= n_simulations)%Z ->
  forallb is_finite (covariance_entries rho n_trails variance_of_mean)
  = true ->
  fl_ltb lambd (of_int 0) = false ->
  py_div monthly_volatility (sqrt (of_int n_obs)) = Ok scale ->
  exists panel : ndarray2,
    _sample_random_multest sqrt shock_mat prob_vec mean_vec rho n_trails
      prob_zero_mean lambd n_simulations annual_vol n_obs = Ok panel.
Proof.
  intros E1 HT E2 E3 HS HC HL E4. unfold _sample_random_multest.
  rewrite E1. cbn [bind].
  replace (n_trails - 1 <? 0)%Z with false by (symmetry; apply Z.ltb_ge; lia).
  cbn [bind]. rewrite E2. cbn [bind]. rewrite E3. cbn [bind].
  replace (n_simulations <? 0)%Z with false
    by (symmetry; apply Z.ltb_ge; lia).
  cbn [bind]. rewrite HC. cbn [bind]. rewrite HL. cbn [bind].
  rewrite E4. cbn [bind]. eexists. reflexivity.
Qed.

(** X15. [_sample_random_multest] returns a panel only for at least one
    trial, a non-negative number of simulations, a non-zero [n_obs] and a
    [lambd] that is not negative: otherwise [np.ones], the draw of the
    shocks, the division by [n_obs] or [np.random.exponential] has
    raised.  A returned panel has [n_simulations] rows and [n_trails]
    columns, and for a positive [n_obs], when the square roots and the
    volatility are not negative, no entry of it is negative: the
    statistics are absolute values over a scale of one sign. *)
Theorem sampled_panel_shape_and_sign :
  forall (sqrt : fl -> fl) (shock_mat prob_vec mean_vec : nat -> nat -> fl)
         (rho : fl) (n_trails : Z) (prob_zero_mean lambd : fl)
         (n_simulations : Z) (annual_vol : fl) (n_obs : Z)
         (panel : ndarray2),
    _sample_random_multest sqrt shock_mat prob_vec mean_vec rho n_trails
      prob_zero_mean lambd n_simulations annual_vol n_obs = Ok panel ->
    (1 <= n_trails)%Z /\ (0 <= n_simulations)%Z /\ n_obs <> 0%Z
    /\ not_negative lambd
    /\ nrows panel = Z.to_nat n_simulations
    /\ ncols panel = Z.to_nat n_trails
    /\ ((0 < n_obs)%Z ->
        (forall x, not_negative (sqrt x)) -> not_negative annual_vol ->
        forall i j, not_negative (cell panel i j)).
Proof.
  intros until panel. unfold _sample_random_multest. intro H.
  apply bind_Ok_inv in H. destruct H as [mv [E1 H]].
  apply bind_Ok_inv in H. destruct H as [[] [E2 H]].
  apply bind_Ok_inv in H. destruct H as [variance [E3 H]].
  apply bind_Ok_inv in H. destruct H as [cov [E4 H]].
  apply bind_Ok_inv in H. destruct H as [[] [E5 H]].
  apply bind_Ok_inv in H. destruct H as [[] [E6 H]].
  apply bind_Ok_inv in H. destruct H as [[] [E7 H]].
  apply bind_Ok_inv in H. destruct H as [scale [E8 H]].
  injection H as <-. simpl nrows. simpl ncols. simpl cell.
  destruct (n_trails - 1 <? 0)%Z eqn:T; [discriminate |].
  destruct (n_simulations <? 0)%Z eqn:S; [discriminate |].
  destruct (fl_ltb lambd (of_int 0)) eqn:L; [discriminate |].
  apply Z.ltb_ge in T, S.
  split; [lia | split; [lia | split; [| split; [exact L |]]]].
  - intros ->. unfold py_div, of_int in E4. simpl in E4. discriminate.
  - split; [reflexivity | split; [reflexivity |]].
    intros _ Hsqrt Hvol i j.
    apply py_div_Ok in E1, E8. subst mv scale.
    apply fl_div_not_negative; [apply fl_abs_not_negative |].
    apply fl_div_not_negative; [| apply Hsqrt].
    apply fl_div_not_negative; [exact Hvol | apply Hsqrt].
Qed.

Lemma sampled_panel_shape_and_sign_witness :
  exists panel : ndarray2,
    _sample_random_multest Toy.sqrt Toy.shock_mat Toy.prob_vec
      Toy.mean_vec (lit 0.4) 5 (lit 0.48604) (lit 0.0055413) 3
      (lit 0.15) 240 = Ok panel
    /\ nrows panel = 3%nat /\ ncols panel = 5%nat.
Proof.
  edestruct (sample_steps_return Toy.sqrt Toy.shock_mat Toy.prob_vec
               Toy.mean_vec (lit 0.4) 5 (lit 0.48604) (lit 0.0055413) 3
               (lit 0.15) 240) as [panel E].
  - vm_compute. reflexivity.
  - lia.
  - vm_compute. reflexivity.
  - vm_compute. reflexivity.
  - lia.
  - vm_compute. reflexivity.
  - vm_compute. reflexivity.
  - vm_compute. reflexivity.
  - exists panel. split; [exact E |].
    destruct (sampled_panel_shape_and_sign Toy.sqrt Toy.shock_mat
                Toy.prob_vec Toy.mean_vec (lit 0.4) 5 (lit 0.48604)
                (lit 0.0055413) 3 (lit 0.15) 240 panel E)
      as [_ [_ [_ [_ [R [C _]]]]]].
    split; [exact R | exact C].
Defined.
